(** * GoodAI/aws: the machine monitor and its supervisor

    A shallow embedding of [machine_monitor.py] (class [MachineMonitor]),
    of the [monitor] command of [aws.py] and of [_get_instance_by_name]
    of [aws_utils.py], with the properties of the specification stated
    over it.

    Conventions.
    - Python [str] values are Rocq strings, read as sequences of
      characters; the remote output is taken after [decode("utf-8")].
    - A Python call that may raise is a [result]; state changes made
      before the exception are kept, as in Python.
    - Everything outside the process (discovery, the SSH session, the
      local log directory, the clock) is an explicit input of a step. *)

From Stdlib Require Import ZArith String Ascii List Bool Lia.
From stdpp Require Import base option list gmap strings sorting.
Import ListNotations.

Local Open Scope Z_scope.

(** ** Python exceptions and results *)

Inductive exn : Type :=
  | IndexError
  | ValueError
  | KeyError
  | AssertionError
  | SSHException
  | OtherError.

Inductive result (A : Type) : Type :=
  | Ret (a : A)
  | Raise (e : exn).

Arguments Ret {A} a.
Arguments Raise {A} e.

Definition rbind {A B} (r : result A) (k : A -> result B) : result B :=
  match r with
  | Ret a => k a
  | Raise e => Raise e
  end.

#[global] Instance result_ret : MRet result := @Ret.
#[global] Instance result_bind : MBind result := fun A B k r => rbind r k.

(** ** The Python string operations the monitor uses *)

Module PyStr.

Definition dquote : ascii := "034"%char.
Definition LF : ascii := "010"%char.
Definition CR : ascii := "013"%char.
Definition ESC : ascii := "027"%char.

Definition str1 (c : ascii) : string := String c EmptyString.

(** [sub in s] *)
Fixpoint contains (sub s : string) : bool :=
  String.prefix sub s ||
  match s with
  | EmptyString => false
  | String _ s' => contains sub s'
  end.

Definition cons_head (c : ascii) (l : list string) : list string :=
  match l with
  | [] => [str1 c]
  | x :: xs => String c x :: xs
  end.

(** [s.split(sep)] for a non-empty [sep] (every call site passes a
    non-empty literal; Python raises ValueError on an empty one).
    [skip] counts the characters of a matched separator still to drop. *)
Fixpoint split_go (sep : string) (skip : nat) (s : string) : list string :=
  match s with
  | EmptyString => [EmptyString]
  | String c s' =>
      match skip with
      | S k => split_go sep k s'
      | O =>
          if String.prefix sep s
          then EmptyString :: split_go sep (Nat.pred (String.length sep)) s'
          else cons_head c (split_go sep 0 s')
      end
  end.

Definition split (sep s : string) : list string := split_go sep 0 s.

(** [s.replace(old, new)] for a non-empty [old]. *)
Fixpoint replace_go (old new : string) (skip : nat) (s : string) : string :=
  match s with
  | EmptyString => EmptyString
  | String c s' =>
      match skip with
      | S k => replace_go old new k s'
      | O =>
          if String.prefix old s
          then new +:+ replace_go old new (Nat.pred (String.length old)) s'
          else String c (replace_go old new 0 s')
      end
  end.

Definition replace (old new s : string) : string := replace_go old new 0 s.

(** The characters [str.strip()] removes, in the ASCII range. *)
Definition is_ws (c : ascii) : bool :=
  let n := nat_of_ascii c in
  ((9 <=? n) && (n <=? 13) || (28 <=? n) && (n <=? 32))%nat.

Fixpoint lstrip (s : string) : string :=
  match s with
  | EmptyString => EmptyString
  | String c s' => if is_ws c then lstrip s' else s
  end.

Fixpoint rstrip (s : string) : string :=
  match s with
  | EmptyString => EmptyString
  | String c s' =>
      match rstrip s' with
      | EmptyString => if is_ws c then EmptyString else str1 c
      | r => String c r
      end
  end.

Definition strip (s : string) : string := rstrip (lstrip s).

Definition digit_val (c : ascii) : option Z :=
  let n := nat_of_ascii c in
  if ((48 <=? n) && (n <=? 57))%nat then Some (Z.of_nat n - 48) else None.

(** The digit part of an integer literal: decimal digits, single
    underscores allowed between two digits. *)
Fixpoint int_digits (acc : Z) (after_digit : bool) (s : string) : option Z :=
  match s with
  | EmptyString => if after_digit then Some acc else None
  | String c s' =>
      match digit_val c with
      | Some d => int_digits (10 * acc + d) true s'
      | None =>
          if Ascii.eqb c "_"%char && after_digit
          then int_digits acc false s'
          else None
      end
  end.

(** [int(s)] in base ten: surrounding whitespace, one optional sign.
    [None] is ValueError. *)
Definition py_int (s : string) : option Z :=
  match strip s with
  | String "+"%char r => int_digits 0 false r
  | String "-"%char r => Z.opp <$> int_digits 0 false r
  | t => int_digits 0 false t
  end.

(** [str(n)] for an integer. *)
Definition digit_char (d : Z) : ascii := ascii_of_nat (Z.to_nat d + 48).

Fixpoint nat_digits (fuel : nat) (n : Z) (acc : string) : string :=
  match fuel with
  | O => acc
  | S f =>
      let acc' := String (digit_char (n mod 10)) acc in
      if n <? 10 then acc' else nat_digits f (n / 10) acc'
  end.

Definition py_str_int (n : Z) : string :=
  if n <? 0
  then String "-"%char (nat_digits (S (Z.to_nat (Z.log2 (- n)))) (- n) EmptyString)
  else nat_digits (S (Z.to_nat (Z.log2 n))) n EmptyString.

(** [l[i]] for a non-negative [i]. *)
Definition index {A} (l : list A) (i : nat) : result A :=
  match l !! i with
  | Some x => Ret x
  | None => Raise IndexError
  end.

(** [",".join(l)] *)
Fixpoint join (sep : string) (l : list string) : string :=
  match l with
  | [] => EmptyString
  | [x] => x
  | x :: xs => x +:+ sep +:+ join sep xs
  end.

Fixpoint count_char (c : ascii) (s : string) : nat :=
  match s with
  | EmptyString => O
  | String d s' => (if Ascii.eqb c d then 1 else 0) + count_char c s'
  end.

End PyStr.

Import PyStr.


(** ** aws_utils.py: discovery helpers *)

(** One entry of the discovery answer ([_collect_instances]), with the
    two keys the monitor reads. *)
Record Instance : Type := {
  Tags : list (string * string);
  PrivateIpAddress : string;
}.

Fixpoint _get_tag_val (tags : list (string * string)) (key : string) : string :=
  match tags with
  | [] => ""
  | (k, v) :: rest => if String.eqb k key then v else _get_tag_val rest key
  end.

(** [_get_instance_by_name], given the answer of [_collect_instances]:
    [None] when no running instance has the name, AssertionError when
    several have it. *)
Definition _get_instance_by_name (name : string) (instances : list Instance)
  : result (option Instance) :=
  let instances_by_name :=
    List.filter (fun i => String.eqb (_get_tag_val (Tags i) "Name") name) instances in
  match instances_by_name with
  | [] => Ret None
  | [i] => Ret (Some i)
  | _ => Raise AssertionError
  end.

(** ** machine_monitor.py: data *)

Record GpuRec : Type := {
  util : string;
  used_mem : string;
  total_mem : string;
}.

(** The first component of a result line: [monitor_exp_id] returns the
    recorded integer or the string ["?"], [_write] uses the string ["??"]. *)
Inductive expid : Type :=
  | EInt (n : Z)
  | EStr (s : string).

(** The dictionary [self.comm], shared with the supervisor. [result] is
    the pair (lines, timestamp). *)
Record Comm : Type := {
  should_stop : bool;
  result_ : list (expid * string) * string;
  load : string;
  gpu : list GpuRec;
}.

Record Monitor : Type := {
  name : string;
  sleep : Z;  (* the interval handed to time.sleep, in milliseconds *)
  comm : Comm;
  exp_ids : gmap Z Z;
  is_exp_ids_detected : bool;
  is_final_logs_downloaded : bool;
}.

#[global] Instance ascii_eq_dec' : EqDecision ascii := ascii_dec.
#[global] Instance GpuRec_eq_dec : EqDecision GpuRec.
Proof. solve_decision. Defined.
#[global] Instance expid_eq_dec : EqDecision expid.
Proof. solve_decision. Defined.
#[global] Instance Comm_eq_dec : EqDecision Comm.
Proof. solve_decision. Defined.

Definition __init__ (name : string) (sleep : Z) (now : string) : Monitor :=
  {| name := name;
     sleep := sleep;
     comm := {| should_stop := false;
                result_ := ([(EStr "?", "Connecting..")], now);
                load := "?";
                gpu := [ {| util := "?"; used_mem := "?"; total_mem := "?" |} ] |};
     exp_ids := ∅;
     is_exp_ids_detected := false;
     is_final_logs_downloaded := false |}.

(** ** The world of one loop iteration *)

Inductive get_outcome : Type :=
  | GetOk
  | GetSSHException
  | GetOtherError.

(** The SSH client during one iteration. [exec_command cmd] is the
    decoded standard output of [cmd]; [None] when the call, the read or
    the decoding raises. *)
Record Session : Type := {
  exec_command : string -> option string;
  open_sftp : bool;
  sftp_get : string -> get_outcome;
  local_exists : string -> bool;
  local_readlines : string -> option (list string);
}.

Record World : Type := {
  stop_request : bool;          (* the SIGINT handler has set should_stop *)
  instances : list Instance;    (* the answer of _collect_instances *)
  key_loads : bool;             (* RSAKey.from_private_key_file succeeds *)
  connects : bool;              (* client.connect succeeds *)
  session : Session;
  clock : string;               (* what now() returns *)
}.

Inductive event : Type :=
  | EvPrint (s : string)
  | EvComm (c : Comm)           (* self.comm after an item assignment *)
  | EvConnect
  | EvExec (cmd : string)
  | EvMkdir (path : string)
  | EvSftpOpen
  | EvSftpGet (remote local_ : string)
  | EvSftpClose
  | EvRemove (path : string)
  | EvSleep (ms : Z).

(** ** The monad of the monitor's methods

    A method reads the world, changes the monitor, emits events (oldest
    first) and returns or raises. *)

Definition M (A : Type) : Type := World -> Monitor -> result A * Monitor * list event.

#[global] Instance M_ret : MRet M := fun A a _ m => (Ret a, m, []).

#[global] Instance M_bind : MBind M := fun A B k c w m =>
  match c w m with
  | (Ret a, m1, e1) =>
      match k a w m1 with
      | (r, m2, e2) => (r, m2, e1 ++ e2)
      end
  | (Raise e, m1, e1) => (Raise e, m1, e1)
  end.

Definition lift {A} (r : result A) : M A := fun _ m => (r, m, []).
Definition emit (e : event) : M unit := fun _ m => (Ret tt, m, [e]).
Definition print (s : string) : M unit := emit (EvPrint s).
Definition ask : M World := fun w m => (Ret w, m, []).
Definition self : M Monitor := fun _ m => (Ret m, m, []).
Definition raise {A} (e : exn) : M A := lift (Raise e).

(** [try: c  except: h] *)
Definition try_except {A} (c : M A) (h : M A) : M A := fun w m =>
  match c w m with
  | (Ret a, m1, e1) => (Ret a, m1, e1)
  | (Raise _, m1, e1) =>
      match h w m1 with
      | (r, m2, e2) => (r, m2, e1 ++ e2)
      end
  end.

(** [try: c  except SSHException: h] *)
Definition try_except_SSHException {A} (c : M A) (h : M A) : M A := fun w m =>
  match c w m with
  | (Raise SSHException, m1, e1) =>
      match h w m1 with
      | (r, m2, e2) => (r, m2, e1 ++ e2)
      end
  | other => other
  end.

(** [for x in l: body x] *)
Fixpoint for_ {A} (l : list A) (body : A -> M unit) : M unit :=
  match l with
  | [] => mret tt
  | x :: xs => body x;; for_ xs body
  end.

(** [for x in l: out.append(body x)] *)
Fixpoint for_append {A B} (l : list A) (body : A -> M B) : M (list B) :=
  match l with
  | [] => mret []
  | x :: xs => y ← body x; ys ← for_append xs body; mret (y :: ys)
  end.

(** Item assignments on [self.comm] and attribute assignments. *)
Definition set_comm (f : Comm -> Comm) : M unit := fun _ m =>
  let c := f (comm m) in
  (Ret tt,
   {| name := name m; sleep := sleep m; comm := c; exp_ids := exp_ids m;
      is_exp_ids_detected := is_exp_ids_detected m;
      is_final_logs_downloaded := is_final_logs_downloaded m |},
   [EvComm c]).

Definition set_result (r : list (expid * string) * string) (c : Comm) : Comm :=
  {| should_stop := should_stop c; result_ := r; load := load c; gpu := gpu c |}.

Definition set_load (l : string) (c : Comm) : Comm :=
  {| should_stop := should_stop c; result_ := result_ c; load := l; gpu := gpu c |}.

Definition set_gpu (g : list GpuRec) (c : Comm) : Comm :=
  {| should_stop := should_stop c; result_ := result_ c; load := load c; gpu := g |}.

Definition set_should_stop (b : bool) (c : Comm) : Comm :=
  {| should_stop := b; result_ := result_ c; load := load c; gpu := gpu c |}.

Definition set_exp_id (group_id v : Z) : M unit := fun _ m =>
  (Ret tt,
   {| name := name m; sleep := sleep m; comm := comm m;
      exp_ids := <[group_id := v]> (exp_ids m);
      is_exp_ids_detected := is_exp_ids_detected m;
      is_final_logs_downloaded := is_final_logs_downloaded m |},
   []).

Definition set_is_exp_ids_detected (b : bool) : M unit := fun _ m =>
  (Ret tt,
   {| name := name m; sleep := sleep m; comm := comm m; exp_ids := exp_ids m;
      is_exp_ids_detected := b;
      is_final_logs_downloaded := is_final_logs_downloaded m |},
   []).

Definition set_is_final_logs_downloaded (b : bool) : M unit := fun _ m =>
  (Ret tt,
   {| name := name m; sleep := sleep m; comm := comm m; exp_ids := exp_ids m;
      is_exp_ids_detected := is_exp_ids_detected m;
      is_final_logs_downloaded := b |},
   []).

(** ** machine_monitor.py: methods *)

Inductive write_arg : Type :=
  | WStr (s : string)
  | WList (l : list (expid * string)).

Definition _write (result : write_arg) : M unit :=
  let result :=
    match result with
    | WStr s => [(EStr "??", s)]
    | WList l => l
    end in
  w ← ask;
  set_comm (set_result (result, clock w)).

Definition id_announcement : string := "Started run with ID ".

Definition _extract_exp_id (line : string) : result (option Z) :=
  if contains id_announcement line then
    seg ← index (split id_announcement line) 1;
    number ← index (split (str1 dquote) seg) 1;
    match py_int number with
    | Some value => Ret (Some value)
    | None => Ret None
    end
  else Ret None.

(** The objects the comparison chain of [monitor_exp_id] looks at. *)
Inductive pyobj : Type :=
  | PyNone
  | PyDict (d : gmap Z Z).

Definition key_in (k : Z) (d : gmap Z Z) : bool := bool_decide (is_Some (d !! k)).

Definition is_not_None (o : pyobj) : bool :=
  match o with
  | PyNone => false
  | PyDict _ => true
  end.

(** [group_id in self.exp_ids is not None]: Python chains comparison
    operators, [a in b is not c] is [(a in b) and (b is not c)] with [b]
    evaluated once. *)
Definition in_is_not_None (group_id : Z) (exp_ids : gmap Z Z) : bool :=
  key_in group_id exp_ids && is_not_None (PyDict exp_ids).

Definition monitor_exp_id (line : string) (group_id : Z) : M expid :=
  parsed ← lift (_extract_exp_id line);
  match parsed with
  | Some p => set_exp_id group_id p
  | None => mret tt
  end;;
  m ← self;
  if in_is_not_None group_id (exp_ids m) then
    match exp_ids m !! group_id with
    | Some v => mret (EInt v)
    | None => raise KeyError
    end
  else mret (EStr "?").

Definition remote_log (group_id : Z) : string :=
  "/home/ubuntu/experiment_" +:+ py_str_int group_id +:+ ".log".

Definition local_log (name : string) (group_id : Z) : string :=
  "remote/logs/" +:+ name +:+ "/experiment_" +:+ py_str_int group_id +:+ ".log".

Definition do_open_sftp : M unit := fun w m =>
  (if open_sftp (session w) then Ret tt else Raise SSHException, m, [EvSftpOpen]).

Definition do_sftp_get (remote local_ : string) : M unit := fun w m =>
  (match sftp_get (session w) remote with
   | GetOk => Ret tt
   | GetSSHException => Raise SSHException
   | GetOtherError => Raise OtherError
   end, m, [EvSftpGet remote local_]).

Definition download_logs (group_ids : list Z) : M unit :=
  m ← self;
  emit (EvMkdir ("remote/logs/" +:+ name m));;
  do_open_sftp;;
  for_ group_ids (fun group_id =>
    let remote_name := remote_log group_id in
    let local_name := local_log (name m) group_id in
    w ← ask;
    (if local_exists (session w) local_name then emit (EvRemove local_name) else mret tt);;
    try_except_SSHException
      (do_sftp_get remote_name local_name;;
       print ("Downloaded the: " +:+ local_name))
      (print "SFTP failed"));;
  emit EvSftpClose.

(** [extract_last_line], on the decoded output. [split] never returns
    an empty list, so [[-1]] is its last element. *)
Definition extract_last_line (stdout_result : string) : string :=
  let last_line := strip (List.last (split (str1 CR) stdout_result) "") in
  let last_line := List.last (split (str1 LF) last_line) "" in
  replace (String ESC "[A") "" last_line.

Definition do_exec (cmd : string) : M string := fun w m =>
  (match exec_command (session w) cmd with
   | Some out => Ret out
   | None => Raise SSHException
   end, m, [EvExec cmd]).

(** [float(s)] for the whole numbers [nvidia-smi] prints. The value is
    kept exact; a text with a fraction, an exponent, [inf] or [nan] is
    not covered and counts as ValueError here. *)
Definition py_float (s : string) : result Z :=
  match py_int s with
  | Some n => Ret n
  | None => Raise ValueError
  end.

(** [int(round(x / 1024, 0))]: Python rounds to the nearest whole
    number, a tie to the even one. Exact below 2^53, where the
    division by 1024 loses nothing. *)
Definition round_div_1024 (x : Z) : Z :=
  let q := x / 1024 in
  let r := x mod 1024 in
  if r <? 512 then q
  else if 512 <? r then q + 1
  else if Z.even q then q else q + 1.

(** The body of the loop over [line_per_gpu]; [None] is [continue]. *)
Definition parse_gpu_line (line : string) : result (option GpuRec) :=
  let values := split "," line in
  if (length values =? 1)%nat then Ret None
  else
    v0 ← index values 0;
    v1 ← index values 1;
    v2 ← index values 2;
    mib_text ← index (split " " v2) 1;
    mib ← py_float mib_text;
    Ret (Some {| util := replace " " "" v0;
                 used_mem := replace " " "" v1;
                 total_mem := py_str_int (round_div_1024 mib) |}).

Fixpoint parse_gpu_lines (line_per_gpu : list string) : result (list GpuRec) :=
  match line_per_gpu with
  | [] => Ret []
  | line :: rest =>
      res ← parse_gpu_line line;
      result_per_gpu ← parse_gpu_lines rest;
      Ret (match res with
           | Some r => r :: result_per_gpu
           | None => result_per_gpu
           end)
  end.

(** What the GPU query stores in [comm["gpu"]] for an output text. *)
Definition parse_gpu_output (out : string) : result (list GpuRec) :=
  parse_gpu_lines (List.tl (split (str1 LF) out)).

Fixpoint parse_file_ids (files : list string) : result (list Z) :=
  match files with
  | [] => Ret []
  | file :: rest =>
      if (0 <? String.length file)%nat then
        part ← index (split "_" file) 1;
        f ← index (split ".log" part) 0;
        n ← match py_int f with
            | Some n => Ret n
            | None => Raise ValueError
            end;
        ids ← parse_file_ids rest;
        Ret (n :: ids)
      else parse_file_ids rest
  end.

(** The scan of [_initial_detect_ids] over [reversed(lines)]: the first
    announcement found is recorded and ends the scan. *)
Fixpoint scan_lines (group_id : Z) (rev_lines : list string) : M unit :=
  match rev_lines with
  | [] => mret tt
  | line :: rest =>
      expid ← lift (_extract_exp_id line);
      match expid with
      | Some v => set_exp_id group_id v
      | None => scan_lines group_id rest
      end
  end.

Definition do_readlines (path : string) : M (list string) := fun w m =>
  (match local_readlines (session w) path with
   | Some lines => Ret lines
   | None => Raise OtherError
   end, m, []).

Definition _initial_detect_ids (group_ids : list Z) : M unit :=
  download_logs group_ids;;
  m ← self;
  for_ group_ids (fun group_id =>
    let local_name := local_log (name m) group_id in
    try_except
      (lines ← do_readlines local_name;
       scan_lines group_id (List.rev lines))
      (mret tt)).

Definition nvidia_smi_cmd : string :=
  "nvidia-smi --query-gpu=utilization.gpu,utilization.memory,memory.total --format=csv ".

Definition do_sleep : M unit := fun _ m => (Ret tt, m, [EvSleep (sleep m)]).

Definition do_connect : M unit := fun w m =>
  (if connects w then Ret tt else Raise SSHException, m, [EvConnect]).

Section WithShutdownMessage.

(** [launch.SHUTDOWN_MESSAGE]: the module is not part of the sources
    at hand, the constant is a parameter. *)
Variable SHUTDOWN_MESSAGE : string.

Definition download_logs_before_shutdown
    (group_ids : list Z) (group_zero_line : string) : M unit :=
  m ← self;
  if contains SHUTDOWN_MESSAGE group_zero_line && negb (is_final_logs_downloaded m) then
    set_is_final_logs_downloaded true;;
    print "SHUTDOWN_MESSAGE detected, downloading the final logs locally...";;
    download_logs group_ids;;
    print "Logs downloaded!"
  else mret tt.

(** The statements of the inner loop of [run] after the existence
    check: one poll cycle. *)
Definition poll_cycle : M unit :=
  out ← do_exec "cat /proc/loadavg";
  tok ← lift (index (split " " out) 0);
  set_comm (set_load (strip tok));;
  out ← do_exec nvidia_smi_cmd;
  result_per_gpu ← lift (parse_gpu_output out);
  set_comm (set_gpu result_per_gpu);;
  out ← do_exec "ls experiment_*.log";
  file_ids ← lift (parse_file_ids (split (str1 LF) out));
  let file_ids := merge_sort Z.le file_ids in
  m ← self;
  (if negb (is_exp_ids_detected m) then
     set_is_exp_ids_detected true;;
     _initial_detect_ids file_ids
   else mret tt);;
  results ← for_append file_ids (fun group_id =>
    let filename := remote_log group_id in
    out ← do_exec ("tail -n 2 " +:+ filename);
    let last_line := extract_last_line out in
    id ← monitor_exp_id last_line group_id;
    (if group_id =? 0 then download_logs_before_shutdown file_ids last_line
     else mret tt);;
    mret (id, last_line));
  _write (WList results);;
  do_sleep.

End WithShutdownMessage.

(** ** machine_monitor.py: [run] as a machine over loop iterations *)

Inductive exit_cause : Type :=
  | InstanceMissing      (* a [return] after the existence check *)
  | StopRequested        (* the outer loop saw should_stop *)
  | Uncaught (e : exn).  (* an exception left [run] *)

Inductive phase : Type :=
  | NotStarted
  | Connecting           (* at the test of the outer loop *)
  | Polling              (* at the test of the inner loop, inside [try] *)
  | Terminated (c : exit_cause).

#[global] Instance exn_eq_dec : EqDecision exn.
Proof. solve_decision. Defined.
#[global] Instance exit_cause_eq_dec : EqDecision exit_cause.
Proof. solve_decision. Defined.
#[global] Instance phase_eq_dec : EqDecision phase.
Proof. solve_decision. Defined.

Definition TAB : ascii := "009"%char.

(** The SIGINT handler of the supervisor assigns [comm["should_stop"]]. *)
Definition observe_stop : M unit :=
  w ← ask;
  if stop_request w then set_comm (set_should_stop true) else mret tt.

Section Run.

Variable SHUTDOWN_MESSAGE : string.

(** Lines 145-155: before the loops. *)
Definition run_prologue : M phase :=
  w ← ask;
  m ← self;
  instance ← lift (_get_instance_by_name (name m) (instances w));
  match instance with
  | None =>
      _write (WStr "ERROR: could not find the instance");;
      mret (Terminated InstanceMissing)
  | Some _ =>
      _write (WStr "Connecting...");;
      (if key_loads w then mret tt else raise OtherError);;
      mret Connecting
  end.

(** One iteration of the outer loop, up to the entry of the inner one. *)
Definition connecting_iteration : M phase :=
  m ← self;
  if should_stop (comm m) then
    print (String TAB (name m +:+ " - monitor: exiting, bye"));;
    mret (Terminated StopRequested)
  else
    w ← ask;
    instance ← lift (_get_instance_by_name (name m) (instances w));
    match instance with
    | None =>
        _write (WStr "My instance terminated, exiting!");;
        mret (Terminated InstanceMissing)
    | Some _ =>
        try_except
          (do_connect;;
           _write (WStr "DONE, connected!");;
           mret Polling)
          (_write (WStr "Could not connect!");;
           mret Connecting)
    end.

(** One iteration of the inner loop. Leaving it by its test falls out
    of the [try] to the test of the outer loop. *)
Definition polling_iteration : M phase :=
  m ← self;
  if should_stop (comm m) then mret Connecting
  else
    try_except
      (w ← ask;
       instance ← lift (_get_instance_by_name (name m) (instances w));
       match instance with
       | None =>
           _write (WStr "My instance terminated, exiting!");;
           mret (Terminated InstanceMissing)
       | Some _ =>
           poll_cycle SHUTDOWN_MESSAGE;;
           mret Polling
       end)
      (_write (WStr "Could not connect!");;
       mret Connecting).

Definition iteration (ph : phase) : M phase :=
  match ph with
  | NotStarted => run_prologue
  | Connecting => connecting_iteration
  | Polling => polling_iteration
  | Terminated c => mret (Terminated c)
  end.

Definition run_step (w : World) (ph : phase) (m : Monitor)
  : phase * Monitor * list event :=
  match (observe_stop;; iteration ph) w m with
  | (Ret ph', m', evs) => (ph', m', evs)
  | (Raise e, m', evs) => (Terminated (Uncaught e), m', evs)
  end.

(** [run] along the worlds of its successive iterations. *)
Fixpoint run (ws : list World) (ph : phase) (m : Monitor)
  : phase * Monitor * list event :=
  match ws with
  | [] => (ph, m, [])
  | w :: ws' =>
      match ph with
      | Terminated _ => (ph, m, [])
      | _ =>
          match run_step w ph m with
          | (ph1, m1, e1) =>
              match run ws' ph1 m1 with
              | (ph2, m2, e2) => (ph2, m2, e1 ++ e2)
              end
          end
      end
  end.

(** [self.comm] at the end of each iteration. *)
Fixpoint published (ws : list World) (ph : phase) (m : Monitor) : list Comm :=
  match ws with
  | [] => []
  | w :: ws' =>
      match ph with
      | Terminated _ => []
      | _ =>
          match run_step w ph m with
          | (ph1, m1, _) => comm m1 :: published ws' ph1 m1
          end
      end
  end.

End Run.

(** What a reader of [self.comm] can find there: its contents after
    each item assignment. *)
Definition observable (evs : list event) : list Comm :=
  omap (fun e => match e with EvComm c => Some c | _ => None end) evs.

Definition is_sleep (e : event) : bool :=
  match e with
  | EvSleep _ => true
  | _ => false
  end.

Definition is_connect (e : event) : bool :=
  match e with
  | EvConnect => true
  | _ => false
  end.

Definition shutdown_detected_msg : string :=
  "SHUTDOWN_MESSAGE detected, downloading the final logs locally...".

Definition is_archive_start (e : event) : bool :=
  match e with
  | EvPrint s => String.eqb s shutdown_detected_msg
  | _ => false
  end.

(** How many times [download_logs_before_shutdown] went into its
    branch, the one that calls [download_logs]. *)
Definition archive_count (evs : list event) : nat :=
  length (List.filter is_archive_start evs).

(** ** aws.py: the supervisor *)

Module Supervisor.

(** [threads] maps a name to a MachineMonitor object, known by its
    identity: the rank of its construction. *)
Record t : Type := {
  threads : gmap string nat;
  constructed : nat;
}.

Definition initial : t := {| threads := ∅; constructed := 0 |}.

(** [d[k] = v] on a dictionary kept in insertion order. *)
Fixpoint dict_set (k v : string) (d : list (string * string)) : list (string * string) :=
  match d with
  | [] => [(k, v)]
  | (k', v') :: rest =>
      if String.eqb k' k then (k', v) :: rest else (k', v') :: dict_set k v rest
  end.

Definition get_machines (instances : list Instance) : list (string * string) :=
  List.fold_left
    (fun d ins => dict_set (_get_tag_val (Tags ins) "Name") (PrivateIpAddress ins) d)
    instances [].

(** The first loop of a tick; also returns the monitors constructed and
    started, as (identity, name). *)
Fixpoint launch (machines : list (string * string)) (s : t) : t * list (nat * string) :=
  match machines with
  | [] => (s, [])
  | (name, ip) :: rest =>
      match threads s !! name with
      | Some _ => launch rest s
      | None =>
          let id := constructed s in
          let s1 := {| threads := <[name := id]> (threads s);
                       constructed := S id |} in
          match launch rest s1 with
          | (s2, started) => (s2, (id, name) :: started)
          end
      end
  end.

Definition in_machines (name : string) (machines : list (string * string)) : bool :=
  existsb (fun kv => String.eqb (fst kv) name) machines.

Definition to_remove (machines : list (string * string)) (s : t) : list string :=
  List.filter (fun name => negb (in_machines name machines))
              (fst <$> map_to_list (threads s)).

Definition pop_all (names : list string) (s : t) : t :=
  {| threads := List.fold_left (fun th name => delete name th) names (threads s);
     constructed := constructed s |}.

(** Lines 126-137: the reconciliation of one tick. *)
Definition reconcile (instances : list Instance) (s : t) : t * list (nat * string) :=
  let machines := get_machines instances in
  match launch machines s with
  | (s1, started) => (pop_all (to_remove machines s1) s1, started)
  end.

Fixpoint all_same_from (first_mem : string) (received : list GpuRec) : bool :=
  match received with
  | [] => true
  | rec :: rest =>
      if negb (String.eqb first_mem (total_mem rec)) then false
      else all_same_from first_mem rest
  end.

Definition _all_gpus_same_memory (received : list GpuRec) : result bool :=
  first ← index received 0;
  Ret (all_same_from (total_mem first) received).

Definition make_gpu_fields (received : list GpuRec) : result (string * string) :=
  all_same ← _all_gpus_same_memory received;
  let loads := util <$> received in
  let mems :=
    (fun gpu => if all_same : bool then used_mem gpu
                else used_mem gpu +:+ " /" +:+ total_mem gpu +:+ "G") <$> received in
  let memory := join "," mems in
  memory ← (if all_same : bool then
              first ← index received 0;
              Ret (memory +:+ " /" +:+ total_mem first +:+ "G")
            else Ret memory);
  Ret (join "," loads, memory).

(** A table row: Name, Ip, Load, GPU, GPU mem, EXPID, stdout. *)
Definition row : Type := string * string * string * string * string * expid * string.

Fixpoint line_rows (line_id : nat) (front : string * string * string * string * string)
    (last_lines : list (expid * string)) : list row :=
  match last_lines with
  | [] => []
  | (exp_id, last_line) :: rest =>
      (if (line_id =? 0)%nat then (front, exp_id, last_line)
       else (("", "", "", "", ""), exp_id, last_line))
      :: line_rows (S line_id) front rest
  end.

(** Lines 150-165: the rows of one machine, from its monitor's [comm]. *)
Definition machine_rows (name ip : string) (comm : Comm) : result (list row) :=
  let load := load comm in
  '(gpu_utils, gpu_mems) ← make_gpu_fields (gpu comm);
  let '(last_lines, heartbeat) := result_ comm in
  if (length last_lines =? 0)%nat then
    Ret [((name, ip, load, gpu_utils, gpu_mems), EStr "-", "WARNING: NO LINE READ")]
  else
    Ret (line_rows 0 (name, ip, load, gpu_utils, gpu_mems) last_lines).

End Supervisor.

(** * Properties *)

(** ** Reasoning about methods

    [obeys P c]: whatever the world, the monitor before, the monitor
    after and the events of [c] are related by [P]. A relation that
    holds of doing nothing and composes along sequencing is carried
    through every combinator. *)

Definition obeys {A} (P : Monitor -> Monitor -> list event -> Prop) (c : M A) : Prop :=
  forall w m r m' evs, c w m = (r, m', evs) -> P m m' evs.

Class Sequential (P : Monitor -> Monitor -> list event -> Prop) : Prop := {
  seq_skip : forall m, P m m [];
  seq_comp : forall m1 m2 m3 e1 e2, P m1 m2 e1 -> P m2 m3 e2 -> P m1 m3 (e1 ++ e2);
}.

Lemma bind_inv {A B} (c : M A) (k : A -> M B) w m r m' evs :
  (x ← c; k x) w m = (r, m', evs) ->
  (exists a m1 e1 e2,
      c w m = (Ret a, m1, e1) /\ k a w m1 = (r, m', e2) /\ evs = e1 ++ e2) \/
  (exists e, c w m = (Raise e, m', evs) /\ r = Raise e).
Proof.
  unfold mbind, M_bind. destruct (c w m) as [[[a | e] m1] e1].
  - destruct (k a w m1) as [[r2 m2] e2] eqn:Hk. intros [= <- <- <-].
    left. exists a, m1, e1, e2. auto.
  - intros [= <- <- <-]. right. exists e. auto.
Qed.

Lemma try_except_inv {A} (c h : M A) w m r m' evs :
  try_except c h w m = (r, m', evs) ->
  (exists a, c w m = (Ret a, m', evs) /\ r = Ret a) \/
  (exists e m1 e1 e2,
      c w m = (Raise e, m1, e1) /\ h w m1 = (r, m', e2) /\ evs = e1 ++ e2).
Proof.
  unfold try_except. destruct (c w m) as [[[a | e] m1] e1].
  - intros [= <- <- <-]. left. eauto.
  - destruct (h w m1) as [[r2 m2] e2] eqn:Hh. intros [= <- <- <-].
    right. exists e, m1, e1, e2. auto.
Qed.

Section Obeys.

Context (P : Monitor -> Monitor -> list event -> Prop) `{!Sequential P}.

Lemma obeys_ret {A} (a : A) : obeys P (mret a).
Proof. intros w m r m' evs [= <- <- <-]. apply seq_skip. Qed.

Lemma obeys_lift {A} (r : result A) : obeys P (lift r).
Proof. intros w m r' m' evs [= <- <- <-]. apply seq_skip. Qed.

Lemma obeys_raise {A} (e : exn) : obeys P (@raise A e).
Proof. apply obeys_lift. Qed.

Lemma obeys_ask : obeys P ask.
Proof. intros w m r m' evs [= <- <- <-]. apply seq_skip. Qed.

Lemma obeys_self : obeys P self.
Proof. intros w m r m' evs [= <- <- <-]. apply seq_skip. Qed.

Lemma obeys_do_readlines path : obeys P (do_readlines path).
Proof. intros w m r m' evs [= <- <- <-]. apply seq_skip. Qed.

Lemma obeys_bind {A B} (c : M A) (k : A -> M B) :
  obeys P c -> (forall a, obeys P (k a)) -> obeys P (x ← c; k x).
Proof.
  intros Hc Hk w m r m' evs H.
  apply bind_inv in H as [(a & m1 & e1 & e2 & H1 & H2 & ->) | (e & H1 & _)].
  - eapply seq_comp; [eapply Hc | eapply Hk]; eauto.
  - eapply Hc; eauto.
Qed.

Lemma obeys_try_except {A} (c h : M A) :
  obeys P c -> obeys P h -> obeys P (try_except c h).
Proof.
  intros Hc Hh w m r m' evs H.
  apply try_except_inv in H as [(a & H1 & _) | (e & m1 & e1 & e2 & H1 & H2 & ->)].
  - eapply Hc; eauto.
  - eapply seq_comp; [eapply Hc | eapply Hh]; eauto.
Qed.

Lemma obeys_try_except_SSHException {A} (c h : M A) :
  obeys P c -> obeys P h -> obeys P (try_except_SSHException c h).
Proof.
  intros Hc Hh w m r m' evs. unfold try_except_SSHException.
  destruct (c w m) as [[[a | e] m1] e1] eqn:Hcw.
  - intros [= <- <- <-]. eapply Hc; eauto.
  - destruct e; try (intros [= <- <- <-]; eapply Hc; eauto).
    destruct (h w m1) as [[r2 m2] e2] eqn:Hhw. intros [= <- <- <-].
    eapply seq_comp; [eapply Hc | eapply Hh]; eauto.
Qed.

Lemma obeys_for {A} (l : list A) (body : A -> M unit) :
  (forall x, obeys P (body x)) -> obeys P (for_ l body).
Proof.
  intros Hb. induction l as [| x xs IH]; simpl.
  - apply obeys_ret.
  - apply obeys_bind; auto.
Qed.

Lemma obeys_for_append {A B} (l : list A) (body : A -> M B) :
  (forall x, obeys P (body x)) -> obeys P (for_append l body).
Proof.
  intros Hb. induction l as [| x xs IH]; simpl.
  - apply obeys_ret.
  - apply obeys_bind; auto. intros y.
    apply obeys_bind; auto. intros ys. apply obeys_ret.
Qed.

End Obeys.

(** One step of a proof that a method obeys a relation. *)
Ltac obeys_step :=
  lazymatch goal with
  | |- Sequential _ => apply _
  | |- forall _, _ => intros ?
  | |- obeys _ (mbind _ _) => apply obeys_bind
  | |- obeys _ (mret _) => apply obeys_ret
  | |- obeys _ (lift _) => apply obeys_lift
  | |- obeys _ (raise _) => apply obeys_raise
  | |- obeys _ ask => apply obeys_ask
  | |- obeys _ self => apply obeys_self
  | |- obeys _ (do_readlines _) => apply obeys_do_readlines
  | |- obeys _ (try_except _ _) => apply obeys_try_except
  | |- obeys _ (try_except_SSHException _ _) => apply obeys_try_except_SSHException
  | |- obeys _ (for_ _ _) => apply obeys_for
  | |- obeys _ (for_append _ _) => apply obeys_for_append
  | |- obeys _ (if ?b then _ else _) => destruct b
  | |- obeys _ (match ?x with _ => _ end) => destruct x
  | |- obeys _ (let _ := _ in _) => cbv zeta
  end.

Ltac obeys_auto db := repeat (first [ obeys_step | solve [ eauto with db ] ]).

(** *** The frame of the worker's own steps

    Name and interval are never assigned, [should_stop] is never
    assigned by the worker, and [is_final_logs_downloaded] is only ever
    assigned [True]. *)

Definition frame (m m' : Monitor) (_ : list event) : Prop :=
  name m' = name m /\
  sleep m' = sleep m /\
  should_stop (comm m') = should_stop (comm m) /\
  (is_final_logs_downloaded m = true -> is_final_logs_downloaded m' = true).

#[global] Instance frame_sequential : Sequential frame.
Proof.
  split.
  - intros m. unfold frame. auto.
  - intros m1 m2 m3 e1 e2 (? & ? & ? & ?) (? & ? & ? & ?).
    unfold frame. repeat split; try congruence; auto.
Qed.

Create HintDb frame_db.

Lemma frame_emit e : obeys frame (emit e).
Proof. intros w m r m' evs [= <- <- <-]. unfold frame; auto. Qed.

Lemma frame_print s : obeys frame (print s).
Proof. apply frame_emit. Qed.

Lemma frame_set_comm f :
  (forall c, should_stop (f c) = should_stop c) -> obeys frame (set_comm f).
Proof. intros Hf w m r m' evs [= <- <- <-]. unfold frame; simpl; auto. Qed.

Lemma frame_set_exp_id g v : obeys frame (set_exp_id g v).
Proof. intros w m r m' evs [= <- <- <-]. unfold frame; simpl; auto. Qed.

Lemma frame_set_is_exp_ids_detected b : obeys frame (set_is_exp_ids_detected b).
Proof. intros w m r m' evs [= <- <- <-]. unfold frame; simpl; auto. Qed.

Lemma frame_set_is_final_logs_downloaded : obeys frame (set_is_final_logs_downloaded true).
Proof. intros w m r m' evs [= <- <- <-]. unfold frame; simpl; auto. Qed.

Lemma frame_do_open_sftp : obeys frame do_open_sftp.
Proof. intros w m r m' evs [= <- <- <-]. unfold frame; auto. Qed.

Lemma frame_do_sftp_get a b : obeys frame (do_sftp_get a b).
Proof. intros w m r m' evs [= <- <- <-]. unfold frame; auto. Qed.

Lemma frame_do_exec cmd : obeys frame (do_exec cmd).
Proof. intros w m r m' evs [= <- <- <-]. unfold frame; auto. Qed.

Lemma frame_do_sleep : obeys frame do_sleep.
Proof. intros w m r m' evs [= <- <- <-]. unfold frame; auto. Qed.

Lemma frame_do_connect : obeys frame do_connect.
Proof. intros w m r m' evs [= <- <- <-]. unfold frame; auto. Qed.

#[global] Hint Resolve frame_emit frame_print frame_set_exp_id
  frame_set_is_exp_ids_detected frame_set_is_final_logs_downloaded
  frame_do_open_sftp frame_do_sftp_get frame_do_exec frame_do_sleep
  frame_do_connect : frame_db.

Lemma frame__write r : obeys frame (_write r).
Proof. unfold _write. obeys_auto frame_db. apply frame_set_comm. reflexivity. Qed.

Lemma frame_download_logs gids : obeys frame (download_logs gids).
Proof. unfold download_logs. obeys_auto frame_db. Qed.

Lemma frame_scan_lines g ls : obeys frame (scan_lines g ls).
Proof. induction ls as [| l ls IH]; simpl; obeys_auto frame_db. Qed.

#[global] Hint Resolve frame__write frame_download_logs frame_scan_lines : frame_db.

Lemma frame__initial_detect_ids gids : obeys frame (_initial_detect_ids gids).
Proof. unfold _initial_detect_ids. obeys_auto frame_db. Qed.

Lemma frame_monitor_exp_id line g : obeys frame (monitor_exp_id line g).
Proof. unfold monitor_exp_id. obeys_auto frame_db. Qed.

Lemma frame_download_logs_before_shutdown SM gids line :
  obeys frame (download_logs_before_shutdown SM gids line).
Proof. unfold download_logs_before_shutdown. obeys_auto frame_db. Qed.

#[global] Hint Resolve frame__initial_detect_ids frame_monitor_exp_id
  frame_download_logs_before_shutdown : frame_db.

Lemma frame_poll_cycle SM : obeys frame (poll_cycle SM).
Proof.
  unfold poll_cycle. obeys_auto frame_db; apply frame_set_comm; reflexivity.
Qed.

#[global] Hint Resolve frame_poll_cycle : frame_db.


(** ** Strings *)

Lemma prefix_str1 (c d : ascii) (s : string) :
  String.prefix (str1 c) (String d s) = Ascii.eqb c d.
Proof.
  unfold str1. simpl. destruct (ascii_dec c d) as [-> | Hne].
  - rewrite Ascii.eqb_refl. destruct s; reflexivity.
  - apply Ascii.eqb_neq in Hne. now rewrite Hne.
Qed.

(** Splitting on a character that does not occur gives one piece. *)
Lemma split_char_absent (c : ascii) (s : string) :
  count_char c s = 0%nat -> split (str1 c) s = [s].
Proof.
  unfold split. induction s as [| d s IH]; simpl; [reflexivity |].
  destruct (Ascii.eqb c d) eqn:Hcd; [discriminate |].
  intros Hs. simpl in Hs.
  destruct (ascii_dec c d) as [-> | Hne].
  - rewrite Ascii.eqb_refl in Hcd. discriminate.
  - rewrite (IH Hs). reflexivity.
Qed.

Lemma split_go_cons sep k c s :
  split_go sep k (String c s) =
  match k with
  | S k' => split_go sep k' s
  | O =>
      if String.prefix sep (String c s)
      then EmptyString :: split_go sep (Nat.pred (String.length sep)) s
      else cons_head c (split_go sep 0 s)
  end.
Proof. reflexivity. Qed.

Lemma split_go_nonempty sep k s : (1 <= length (split_go sep k s))%nat.
Proof.
  revert k. induction s as [| c s IH]; intros k; [simpl; lia |].
  rewrite split_go_cons. destruct k as [| k]; [| apply IH].
  destruct (String.prefix sep (String c s)); [simpl; lia |].
  specialize (IH 0%nat). destruct (split_go sep 0 s); simpl in *; lia.
Qed.

Lemma length_cons_head c l : (1 <= length l)%nat -> length (cons_head c l) = length l.
Proof. destruct l; simpl; lia. Qed.

(** A separator that occurs cuts the text in two pieces at least. *)
Lemma split_contains sep s :
  sep <> EmptyString -> contains sep s = true -> (2 <= length (split sep s))%nat.
Proof.
  intros Hsep. unfold split. induction s as [| c s IH].
  - simpl. destruct sep; [congruence | discriminate].
  - rewrite split_go_cons. cbn [contains].
    destruct (String.prefix sep (String c s)) eqn:Hp.
    + intros _. cbn [length].
      pose proof (split_go_nonempty sep (Nat.pred (String.length sep)) s). lia.
    + rewrite orb_false_l. intros Hc. specialize (IH Hc).
      rewrite length_cons_head; [exact IH | lia].
Qed.

Lemma split_second sep s :
  sep <> EmptyString -> contains sep s = true ->
  exists seg, split sep s !! 1%nat = Some seg.
Proof.
  intros Hsep Hc. pose proof (split_contains sep s Hsep Hc) as Hlen.
  destruct (split sep s) as [| x [| y l]]; simpl in Hlen; try lia.
  exists y. reflexivity.
Qed.

(** ** Experiment ids *)

(** The text after the first occurrence of [sub], when there is one. *)
Fixpoint string_drop (n : nat) (s : string) : string :=
  match n, s with
  | S k, String _ s' => string_drop k s'
  | _, _ => s
  end.

Fixpoint after_first (sub s : string) : option string :=
  if String.prefix sub s then Some (string_drop (String.length sub) s)
  else
    match s with
    | EmptyString => None
    | String _ s' => after_first sub s'
    end.

Definition announced_unclosed : string :=
  id_announcement +:+ str1 dquote +:+ "7160".

(** C10, as stated, fails: with the announcement followed by one quote
    only, nothing is raised and the text after the quote is the token. *)
Lemma extract_exp_id_one_quote :
  contains id_announcement announced_unclosed = true /\
  (exists rest, after_first id_announcement announced_unclosed = Some rest /\
                (count_char dquote rest < 2)%nat) /\
  _extract_exp_id announced_unclosed = Ret (Some 7160) /\
  _extract_exp_id announced_unclosed <> Raise IndexError.
Proof.
  split; [reflexivity |]. split.
  - eexists. split; [reflexivity |]. vm_compute. lia.
  - split; [reflexivity | discriminate].
Qed.

(** C10, amended: a line that contains the announcement and has no
    quote in the piece that follows its first occurrence (up to the next
    occurrence, or the end of the line) makes [_extract_exp_id] raise
    IndexError; only the integer conversion is guarded. *)
Theorem extract_exp_id_raises_without_quote (line : string) :
  contains id_announcement line = true ->
  (forall seg, split id_announcement line !! 1%nat = Some seg ->
               count_char dquote seg = 0%nat) ->
  _extract_exp_id line = Raise IndexError.
Proof.
  intros Hc Hq. unfold _extract_exp_id. rewrite Hc.
  destruct (split_second id_announcement line) as [seg Hseg]; [discriminate | exact Hc |].
  unfold index. rewrite Hseg. unfold mbind, result_bind, rbind.
  rewrite (split_char_absent dquote seg (Hq seg Hseg)). reflexivity.
Qed.

Lemma extract_exp_id_raises_without_quote_witness :
  _extract_exp_id (id_announcement +:+ "7160") = Raise IndexError.
Proof.
  apply extract_exp_id_raises_without_quote.
  - reflexivity.
  - intros seg Hseg. vm_compute in Hseg. injection Hseg as <-. reflexivity.
Defined.

(** The guarded part: a quoted token that is no integer gives [None]. *)
Example extract_exp_id_not_a_number :
  _extract_exp_id (id_announcement +:+ str1 dquote +:+ "abc" +:+ str1 dquote) = Ret None.
Proof. reflexivity. Qed.

Example extract_exp_id_spec_line :
  _extract_exp_id ("INFO - " +:+ id_announcement +:+ str1 dquote +:+ "7160" +:+ str1 dquote)
  = Ret (Some 7160).
Proof. reflexivity. Qed.

Example extract_exp_id_no_announcement : _extract_exp_id "epoch 3 loss 0.1" = Ret None.
Proof. reflexivity. Qed.

(** ** The comparison chain of [monitor_exp_id] *)

(** C3, as stated, fails: on an empty map the chain is false, and
    [monitor_exp_id] answers the placeholder. *)
Lemma chain_false_on_empty_map :
  in_is_not_None 0 ∅ = false /\
  ~ (forall (exp_ids : gmap Z Z) (group_id : Z), in_is_not_None group_id exp_ids = true).
Proof.
  split; [reflexivity |]. intros H. specialize (H ∅ 0). discriminate H.
Qed.

Lemma key_in_true (exp_ids : gmap Z Z) (group_id : Z) :
  key_in group_id exp_ids = true <-> is_Some (exp_ids !! group_id).
Proof. unfold key_in. apply bool_decide_eq_true. Qed.

Lemma key_in_false (exp_ids : gmap Z Z) (group_id : Z) :
  key_in group_id exp_ids = false <-> exp_ids !! group_id = None.
Proof.
  unfold key_in. rewrite bool_decide_eq_false. split.
  - intros H. destruct (exp_ids !! group_id); [exfalso; apply H; eauto | reflexivity].
  - intros -> [? [=]].
Qed.

Lemma in_is_not_None_key_in (exp_ids : gmap Z Z) (group_id : Z) :
  in_is_not_None group_id exp_ids = key_in group_id exp_ids.
Proof. unfold in_is_not_None. simpl. apply andb_true_r. Qed.

(** C3, amended: the chain is [(group_id in exp_ids) and (exp_ids is not
    None)]; its second half is always true, so it is true exactly when
    the group has a recorded id, and the placeholder branch is taken
    exactly when it has none. *)
Theorem chain_is_membership (exp_ids : gmap Z Z) (group_id : Z) :
  is_not_None (PyDict exp_ids) = true /\
  in_is_not_None group_id exp_ids = key_in group_id exp_ids /\
  (in_is_not_None group_id exp_ids = true <-> is_Some (exp_ids !! group_id)) /\
  (in_is_not_None group_id exp_ids = false <-> exp_ids !! group_id = None).
Proof.
  split; [reflexivity |]. split; [apply in_is_not_None_key_in |].
  rewrite in_is_not_None_key_in. split; [apply key_in_true | apply key_in_false].
Qed.

(** What [monitor_exp_id] returns on a line without announcement. *)
Lemma monitor_exp_id_no_announcement line group_id w m :
  _extract_exp_id line = Ret None ->
  monitor_exp_id line group_id w m =
    (Ret (match exp_ids m !! group_id with
          | Some v => EInt v
          | None => EStr "?"
          end), m, []).
Proof.
  intros Hl. unfold monitor_exp_id, mbind, M_bind, lift, self. rewrite Hl. simpl.
  rewrite in_is_not_None_key_in.
  destruct (key_in group_id (exp_ids m)) eqn:Hk.
  - apply key_in_true in Hk as [v Hv]. rewrite Hv. reflexivity.
  - apply key_in_false in Hk. rewrite Hk. reflexivity.
Qed.

(** A found announcement is recorded and returned. *)
Lemma monitor_exp_id_announcement line group_id v w m :
  _extract_exp_id line = Ret (Some v) ->
  exists m',
    monitor_exp_id line group_id w m = (Ret (EInt v), m', []) /\
    exp_ids m' = <[group_id := v]> (exp_ids m).
Proof.
  intros Hl. unfold monitor_exp_id, mbind, M_bind, lift, self, set_exp_id. rewrite Hl. simpl.
  unfold in_is_not_None, key_in. simpl. rewrite lookup_insert_eq.
  rewrite bool_decide_eq_true_2 by eauto. simpl. eauto.
Qed.

(** ** GPU rows *)

Definition spec_row : string := "12 %, 34 %, 11441 MiB".




Example round_tie_to_even : round_div_1024 1536 = 2 /\ round_div_1024 2560 = 2.
Proof. split; reflexivity. Qed.

Lemma parse_gpu_line_no_comma line :
  count_char ","%char line = 0%nat -> parse_gpu_line line = Ret None.
Proof.
  intros H. unfold parse_gpu_line.
  change "," with (str1 ","%char). rewrite (split_char_absent _ _ H). reflexivity.
Qed.

Lemma parse_gpu_lines_no_comma lines :
  Forall (fun line => count_char ","%char line = 0%nat) lines ->
  parse_gpu_lines lines = Ret [].
Proof.
  induction 1 as [| line lines Hl _ IH]; simpl; [reflexivity |].
  rewrite (parse_gpu_line_no_comma _ Hl). simpl. rewrite IH. reflexivity.
Qed.

(** An output without a row that has a comma (an empty output, the
    header alone) is parsed to the empty list, without error. *)
Lemma parse_gpu_output_no_rows out :
  Forall (fun line => count_char ","%char line = 0%nat) (List.tl (split (str1 LF) out)) ->
  parse_gpu_output out = Ret [].
Proof. apply parse_gpu_lines_no_comma. Qed.

Lemma make_gpu_fields_nil : Supervisor.make_gpu_fields [] = Raise IndexError.
Proof. reflexivity. Qed.

Lemma machine_rows_no_gpu name ip c :
  gpu c = [] -> Supervisor.machine_rows name ip c = Raise IndexError.
Proof. intros H. unfold Supervisor.machine_rows. rewrite H. reflexivity. Qed.

(** *** What stays in [comm] once the GPU list is assigned *)

Definition keeps_gpu (m m' : Monitor) (_ : list event) : Prop :=
  gpu (comm m') = gpu (comm m) /\ load (comm m') = load (comm m).

#[global] Instance keeps_gpu_sequential : Sequential keeps_gpu.
Proof.
  split.
  - intros m. unfold keeps_gpu. auto.
  - intros m1 m2 m3 e1 e2 [? ?] [? ?]. unfold keeps_gpu. split; congruence.
Qed.

Ltac primitive P := intros ? ? ? ? ? [= <- <- <-]; unfold P; simpl; auto.

Create HintDb keeps_gpu_db.

Lemma keeps_gpu_emit e : obeys keeps_gpu (emit e).
Proof. primitive keeps_gpu. Qed.
Lemma keeps_gpu_print s : obeys keeps_gpu (print s).
Proof. primitive keeps_gpu. Qed.
Lemma keeps_gpu_set_result r : obeys keeps_gpu (set_comm (set_result r)).
Proof. primitive keeps_gpu. Qed.
Lemma keeps_gpu_set_exp_id g v : obeys keeps_gpu (set_exp_id g v).
Proof. primitive keeps_gpu. Qed.
Lemma keeps_gpu_set_is_exp_ids_detected b : obeys keeps_gpu (set_is_exp_ids_detected b).
Proof. primitive keeps_gpu. Qed.
Lemma keeps_gpu_set_is_final_logs_downloaded b :
  obeys keeps_gpu (set_is_final_logs_downloaded b).
Proof. primitive keeps_gpu. Qed.
Lemma keeps_gpu_do_open_sftp : obeys keeps_gpu do_open_sftp.
Proof. primitive keeps_gpu. Qed.
Lemma keeps_gpu_do_sftp_get a b : obeys keeps_gpu (do_sftp_get a b).
Proof. primitive keeps_gpu. Qed.
Lemma keeps_gpu_do_exec cmd : obeys keeps_gpu (do_exec cmd).
Proof. primitive keeps_gpu. Qed.
Lemma keeps_gpu_do_sleep : obeys keeps_gpu do_sleep.
Proof. primitive keeps_gpu. Qed.

#[global] Hint Resolve keeps_gpu_emit keeps_gpu_print keeps_gpu_set_result
  keeps_gpu_set_exp_id keeps_gpu_set_is_exp_ids_detected
  keeps_gpu_set_is_final_logs_downloaded keeps_gpu_do_open_sftp
  keeps_gpu_do_sftp_get keeps_gpu_do_exec keeps_gpu_do_sleep : keeps_gpu_db.

Lemma keeps_gpu__write r : obeys keeps_gpu (_write r).
Proof. unfold _write. obeys_auto keeps_gpu_db. Qed.

Lemma keeps_gpu_download_logs gids : obeys keeps_gpu (download_logs gids).
Proof. unfold download_logs. obeys_auto keeps_gpu_db. Qed.

Lemma keeps_gpu_scan_lines g ls : obeys keeps_gpu (scan_lines g ls).
Proof. induction ls as [| l ls IH]; simpl; obeys_auto keeps_gpu_db. Qed.

#[global] Hint Resolve keeps_gpu__write keeps_gpu_download_logs
  keeps_gpu_scan_lines : keeps_gpu_db.

Lemma keeps_gpu__initial_detect_ids gids : obeys keeps_gpu (_initial_detect_ids gids).
Proof. unfold _initial_detect_ids. obeys_auto keeps_gpu_db. Qed.

Lemma keeps_gpu_monitor_exp_id line g : obeys keeps_gpu (monitor_exp_id line g).
Proof. unfold monitor_exp_id. obeys_auto keeps_gpu_db. Qed.

Lemma keeps_gpu_download_logs_before_shutdown SM gids line :
  obeys keeps_gpu (download_logs_before_shutdown SM gids line).
Proof. unfold download_logs_before_shutdown. obeys_auto keeps_gpu_db. Qed.

#[global] Hint Resolve keeps_gpu__initial_detect_ids keeps_gpu_monitor_exp_id
  keeps_gpu_download_logs_before_shutdown : keeps_gpu_db.

(** Peels the first statement off a sequence in a hypothesis. *)
Ltac peel H a m1 e1 H1 :=
  apply bind_inv in H as [(a & m1 & e1 & ? & H1 & H & ->) | (? & H1 & ->)].

(** C9: when the GPU query of a poll cycle prints no row with a comma,
    the cycle assigns the empty list to [comm["gpu"]], it is still
    there when the cycle ends, however it ends, and for this [comm] the
    supervisor's [make_gpu_fields] raises IndexError on [received[0]],
    so that no row is rendered for the machine. *)
Theorem empty_gpu_list_breaks_rendering SM w m r m' evs out_load out_gpu :
  exec_command (session w) "cat /proc/loadavg" = Some out_load ->
  exec_command (session w) nvidia_smi_cmd = Some out_gpu ->
  Forall (fun line => count_char ","%char line = 0%nat)
         (List.tl (split (str1 LF) out_gpu)) ->
  poll_cycle SM w m = (r, m', evs) ->
  gpu (comm m') = [] /\
  Supervisor.make_gpu_fields (gpu (comm m')) = Raise IndexError /\
  forall name ip, Supervisor.machine_rows name ip (comm m') = Raise IndexError.
Proof.
  intros Hload Hgpu Hrows H.
  assert (gpu (comm m') = []) as Hnil; [| rewrite Hnil; repeat split; auto using machine_rows_no_gpu].
  unfold poll_cycle in H.
  peel H a1 m1 e1 H1; [| unfold do_exec in H1; rewrite Hload in H1; discriminate].
  unfold do_exec in H1. rewrite Hload in H1. injection H1 as <- <- <-.
  peel H a2 m2 e2 H2;
    [| pose proof (split_go_nonempty " " 0 out_load) as Hne; unfold lift, index in H2;
       fold (split " " out_load) in Hne;
       destruct (split " " out_load); [simpl in Hne; lia | discriminate]].
  injection H2 as _ <- <-.
  peel H a3 m3 e3 H3; [| discriminate].
  injection H3 as <- <- <-.
  peel H a4 m4 e4 H4; [| unfold do_exec in H4; rewrite Hgpu in H4; discriminate].
  unfold do_exec in H4. rewrite Hgpu in H4. injection H4 as <- <- <-.
  rewrite (parse_gpu_output_no_rows _ Hrows) in H.
  peel H a5 m5 e5 H5; [| discriminate].
  injection H5 as <- <- <-.
  peel H a6 m6 e6 H6; [| discriminate].
  injection H6 as <- <- <-.
  match type of H with
  | ?K _ _ = _ => assert (obeys keeps_gpu K) as HK by obeys_auto keeps_gpu_db
  end.
  apply HK in H. destruct H as [-> _]. reflexivity.
Qed.

(** ** Sample worlds *)

Definition sample_instance (n : string) : Instance :=
  {| Tags := [("Owner", "me"); ("Name", n)]; PrivateIpAddress := "10.0.0.7" |}.

Definition gpu_header : string :=
  "utilization.gpu [%], utilization.memory [%], memory.total [MiB]".

(** A session with one log, [experiment_0.log]. *)
Definition sample_session (out_load out_gpu out_tail : option string) (get : get_outcome)
  : Session :=
  {| exec_command := fun cmd =>
       if String.eqb cmd "cat /proc/loadavg" then out_load
       else if String.eqb cmd nvidia_smi_cmd then out_gpu
       else if String.eqb cmd "ls experiment_*.log" then Some ("experiment_0.log" +:+ str1 LF)
       else if String.eqb cmd "tail -n 2 /home/ubuntu/experiment_0.log" then out_tail
       else None;
     open_sftp := true;
     sftp_get := fun _ => get;
     local_exists := fun _ => false;
     local_readlines := fun _ => None |}.

Definition sample_world (found : list Instance) (connects : bool) (s : Session) (now : string)
  : World :=
  {| stop_request := false; instances := found; key_loads := true;
     connects := connects; session := s; clock := now |}.

Definition sample_monitor : Monitor := __init__ "m1" 100 "09:00:00.000".

Definition no_gpu_world : World :=
  sample_world [sample_instance "m1"] true
    (sample_session (Some "0.52 0.58 0.59 2/871 12345") (Some (gpu_header +:+ str1 LF))
                    (Some "epoch 1") GetOk)
    "09:00:01.000".

Lemma empty_gpu_list_breaks_rendering_witness :
  gpu (comm (poll_cycle "SHUTDOWN" no_gpu_world sample_monitor).1.2) = [] /\
  Supervisor.make_gpu_fields
    (gpu (comm (poll_cycle "SHUTDOWN" no_gpu_world sample_monitor).1.2)) = Raise IndexError /\
  forall name ip,
    Supervisor.machine_rows name ip
      (comm (poll_cycle "SHUTDOWN" no_gpu_world sample_monitor).1.2) = Raise IndexError.
Proof.
  apply (empty_gpu_list_breaks_rendering "SHUTDOWN" no_gpu_world sample_monitor
           (poll_cycle "SHUTDOWN" no_gpu_world sample_monitor).1.1
           (poll_cycle "SHUTDOWN" no_gpu_world sample_monitor).1.2
           (poll_cycle "SHUTDOWN" no_gpu_world sample_monitor).2
           "0.52 0.58 0.59 2/871 12345" (gpu_header +:+ str1 LF)).
  - reflexivity.
  - reflexivity.
  - vm_compute. repeat constructor.
  - destruct (poll_cycle "SHUTDOWN" no_gpu_world sample_monitor) as [[? ?] ?]. reflexivity.
Defined.

(** ** The supervisor's reconciliation *)

Import Supervisor.

Lemma lookup_fold_delete (names : list string) (th : gmap string nat) (k : string) :
  List.fold_left (fun th name => delete name th) names th !! k =
  if decide (k ∈ names) then None else th !! k.
Proof.
  revert th. induction names as [| n names IH]; intros th.
  - destruct (decide (k ∈ [])) as [Hin | _]; [| reflexivity].
    now apply not_elem_of_nil in Hin.
  - cbn [List.fold_left]. rewrite IH.
    destruct (decide (k ∈ names)) as [Hin | Hnin];
      destruct (decide (k ∈ n :: names)) as [Hin' | Hnin']; try reflexivity.
    + exfalso. apply Hnin'. now right.
    + apply elem_of_cons in Hin' as [-> | ?]; [apply lookup_delete_eq | contradiction].
    + apply lookup_delete_ne. intros ->. apply Hnin'. left.
Qed.

Lemma elem_of_to_remove machines s k :
  k ∈ to_remove machines s <->
  is_Some (threads s !! k) /\ in_machines k machines = false.
Proof.
  unfold to_remove. rewrite list_elem_of_In, filter_In, <- list_elem_of_In.
  rewrite negb_true_iff, list_elem_of_fmap. split.
  - intros [([k' v] & -> & Hkv%elem_of_map_to_list) Hm]. split; eauto.
  - intros [[v Hv] Hm]. split; [| exact Hm].
    exists (k, v). split; [reflexivity | now apply elem_of_map_to_list].
Qed.

(** After the removal loop, a name is mapped as before when discovery
    lists it, and not at all otherwise. *)
Lemma lookup_pop_all_to_remove machines s k :
  threads (pop_all (to_remove machines s) s) !! k =
  if in_machines k machines then threads s !! k else None.
Proof.
  unfold pop_all. simpl. rewrite lookup_fold_delete.
  destruct (decide (k ∈ to_remove machines s)) as [Hin | Hnin].
  - apply elem_of_to_remove in Hin as [_ ->]. reflexivity.
  - destruct (in_machines k machines) eqn:Hm; [reflexivity |].
    destruct (threads s !! k) as [v |] eqn:Hk; [| reflexivity].
    exfalso. apply Hnin. apply elem_of_to_remove. rewrite Hk. eauto.
Qed.

Lemma constructed_pop_all names s : constructed (pop_all names s) = constructed s.
Proof. reflexivity. Qed.

Lemma get_machines_two (i j : Instance) :
  _get_tag_val (Tags i) "Name" <> _get_tag_val (Tags j) "Name" ->
  get_machines [i; j] =
    [(_get_tag_val (Tags i) "Name", PrivateIpAddress i);
     (_get_tag_val (Tags j) "Name", PrivateIpAddress j)].
Proof.
  intros Hne. unfold get_machines. simpl.
  apply String.eqb_neq in Hne. rewrite Hne. reflexivity.
Qed.

(** Duplicate names in discovery collapse to one entry, the last
    address kept. *)
Lemma get_machines_duplicate (i j : Instance) :
  _get_tag_val (Tags i) "Name" = _get_tag_val (Tags j) "Name" ->
  get_machines [i; j] = [(_get_tag_val (Tags i) "Name", PrivateIpAddress j)].
Proof.
  intros He. unfold get_machines. simpl. rewrite He, String.eqb_refl. reflexivity.
Qed.

Lemma in_machines_two (a b k va vb : string) :
  in_machines k [(a, va); (b, vb)] = (String.eqb a k || String.eqb b k).
Proof. unfold in_machines. simpl. now rewrite orb_false_r. Qed.

(** C7: discovery answers [A, B] on one tick and [B, C] on the next,
    from an empty map. The first tick constructs and starts one monitor
    for A and one for B; the second constructs none for B, which keeps
    the monitor object it had, removes A from the map, and constructs
    and starts one monitor for C. *)
Theorem reconcile_AB_then_BC (iA iB iB' iC : Instance) :
  let A := _get_tag_val (Tags iA) "Name" in
  let B := _get_tag_val (Tags iB) "Name" in
  let C := _get_tag_val (Tags iC) "Name" in
  _get_tag_val (Tags iB') "Name" = B ->
  A <> B -> B <> C -> A <> C ->
  let tick1 := reconcile [iA; iB] initial in
  let tick2 := reconcile [iB'; iC] tick1.1 in
  tick1.2 = [(0%nat, A); (1%nat, B)] /\
  threads tick1.1 !! A = Some 0%nat /\
  threads tick1.1 !! B = Some 1%nat /\
  tick2.2 = [(2%nat, C)] /\
  threads tick2.1 !! B = threads tick1.1 !! B /\
  threads tick2.1 !! A = None /\
  threads tick2.1 !! C = Some 2%nat /\
  forall k, is_Some (threads tick2.1 !! k) <-> k = B \/ k = C.
Proof.
  intros A B C HB' HAB HBC HAC tick1 tick2.
  assert (String.eqb A B = false) as EAB by now apply String.eqb_neq.
  assert (String.eqb B A = false) as EBA by now apply String.eqb_neq.
  assert (String.eqb B C = false) as EBC by now apply String.eqb_neq.
  assert (String.eqb C B = false) as ECB by now apply String.eqb_neq.
  assert (String.eqb A C = false) as EAC by now apply String.eqb_neq.
  assert (String.eqb C A = false) as ECA by now apply String.eqb_neq.
  (* the first tick *)
  assert (tick1 = (pop_all (to_remove [(A, PrivateIpAddress iA); (B, PrivateIpAddress iB)]
                      {| threads := <[B := 1%nat]> (<[A := 0%nat]> ∅); constructed := 2 |})
                      {| threads := <[B := 1%nat]> (<[A := 0%nat]> ∅); constructed := 2 |},
                   [(0%nat, A); (1%nat, B)])) as E1.
  { subst tick1. unfold reconcile. rewrite get_machines_two by exact HAB.
    fold A B. simpl. rewrite lookup_empty. simpl.
    rewrite lookup_insert_ne by exact HAB. rewrite lookup_empty. reflexivity. }
  assert (threads tick1.1 !! A = Some 0%nat) as H1A.
  { rewrite E1. simpl fst. rewrite lookup_pop_all_to_remove, in_machines_two.
    rewrite String.eqb_refl. simpl.
    rewrite lookup_insert_ne by congruence. apply lookup_insert_eq. }
  assert (threads tick1.1 !! B = Some 1%nat) as H1B.
  { rewrite E1. simpl fst. rewrite lookup_pop_all_to_remove, in_machines_two.
    rewrite String.eqb_refl, orb_true_r. apply lookup_insert_eq. }
  assert (threads tick1.1 !! C = None) as H1C.
  { rewrite E1. simpl fst. rewrite lookup_pop_all_to_remove, in_machines_two.
    rewrite EAC, EBC. reflexivity. }
  assert (constructed tick1.1 = 2%nat) as H1n by (rewrite E1; reflexivity).
  (* the second tick *)
  assert (tick2 = (pop_all (to_remove [(B, PrivateIpAddress iB'); (C, PrivateIpAddress iC)]
                      {| threads := <[C := 2%nat]> (threads tick1.1); constructed := 3 |})
                      {| threads := <[C := 2%nat]> (threads tick1.1); constructed := 3 |},
                   [(2%nat, C)])) as E2.
  { subst tick2. unfold reconcile. rewrite get_machines_two by (rewrite HB'; exact HBC).
    rewrite HB'. fold B C. simpl. rewrite H1B, H1C, H1n. reflexivity. }
  assert (forall k, threads tick2.1 !! k =
                    if String.eqb B k || String.eqb C k
                    then <[C := 2%nat]> (threads tick1.1) !! k else None) as L2.
  { intros k. rewrite E2. simpl fst.
    rewrite lookup_pop_all_to_remove, in_machines_two. reflexivity. }
  split; [rewrite E1; reflexivity |].
  split; [exact H1A |]. split; [exact H1B |].
  split; [rewrite E2; reflexivity |].
  split; [rewrite L2, String.eqb_refl; simpl;
          rewrite lookup_insert_ne by congruence; reflexivity |].
  split; [rewrite L2, EBA, ECA; reflexivity |].
  split; [rewrite L2, String.eqb_refl, orb_true_r; apply lookup_insert_eq |].
  intros k. rewrite L2. split.
  - destruct (String.eqb B k) eqn:EB; [apply String.eqb_eq in EB; auto |].
    destruct (String.eqb C k) eqn:EC; [apply String.eqb_eq in EC; auto |].
    simpl. intros [? [=]].
  - intros [-> | ->].
    + rewrite String.eqb_refl. simpl. rewrite lookup_insert_ne by congruence.
      rewrite H1B. eauto.
    + rewrite String.eqb_refl, orb_true_r. rewrite lookup_insert_eq. eauto.
Qed.

Lemma reconcile_AB_then_BC_witness :
  let tick1 := reconcile [sample_instance "A"; sample_instance "B"] initial in
  let tick2 := reconcile [sample_instance "B"; sample_instance "C"] tick1.1 in
  tick1.2 = [(0%nat, "A"); (1%nat, "B")] /\
  threads tick1.1 !! "A" = Some 0%nat /\
  threads tick1.1 !! "B" = Some 1%nat /\
  tick2.2 = [(2%nat, "C")] /\
  threads tick2.1 !! "B" = threads tick1.1 !! "B" /\
  threads tick2.1 !! "A" = None /\
  threads tick2.1 !! "C" = Some 2%nat /\
  forall k, is_Some (threads tick2.1 !! k) <-> k = "B" \/ k = "C".
Proof.
  apply (reconcile_AB_then_BC (sample_instance "A") (sample_instance "B")
           (sample_instance "B") (sample_instance "C")).
  - reflexivity.
  - simpl. discriminate.
  - simpl. discriminate.
  - simpl. discriminate.
Defined.

(** ** Which events a method can emit *)

Definition emits (ok : event -> bool) (_ _ : Monitor) (evs : list event) : Prop :=
  forallb ok evs = true.

#[global] Instance emits_sequential ok : Sequential (emits ok).
Proof.
  split.
  - reflexivity.
  - intros m1 m2 m3 e1 e2 H1 H2. unfold emits in *.
    rewrite forallb_app, H1, H2. reflexivity.
Qed.

Lemma emits_emit ok e : ok e = true -> obeys (emits ok) (emit e).
Proof. intros H ? ? ? ? ? [= <- <- <-]. unfold emits. simpl. now rewrite H. Qed.

Lemma emits_print ok s : ok (EvPrint s) = true -> obeys (emits ok) (print s).
Proof. apply emits_emit. Qed.

Lemma emits_set_comm ok f : (forall c, ok (EvComm c) = true) -> obeys (emits ok) (set_comm f).
Proof. intros H ? ? ? ? ? [= <- <- <-]. unfold emits. simpl. now rewrite H. Qed.

Lemma emits_set_exp_id ok g v : obeys (emits ok) (set_exp_id g v).
Proof. primitive emits. Qed.

Lemma emits_set_is_exp_ids_detected ok b : obeys (emits ok) (set_is_exp_ids_detected b).
Proof. primitive emits. Qed.

Lemma emits_set_is_final_logs_downloaded ok b :
  obeys (emits ok) (set_is_final_logs_downloaded b).
Proof. primitive emits. Qed.

Lemma emits_do_open_sftp ok : ok EvSftpOpen = true -> obeys (emits ok) do_open_sftp.
Proof. intros H ? ? ? ? ? [= <- <- <-]. unfold emits. simpl. now rewrite H. Qed.

Lemma emits_do_sftp_get ok a b : ok (EvSftpGet a b) = true -> obeys (emits ok) (do_sftp_get a b).
Proof. intros H ? ? ? ? ? [= <- <- <-]. unfold emits. simpl. now rewrite H. Qed.

Lemma emits_do_exec ok cmd : ok (EvExec cmd) = true -> obeys (emits ok) (do_exec cmd).
Proof. intros H ? ? ? ? ? [= <- <- <-]. unfold emits. simpl. now rewrite H. Qed.

Lemma emits_do_sleep ok : (forall ms, ok (EvSleep ms) = true) -> obeys (emits ok) do_sleep.
Proof. intros H ? ? ? ? ? [= <- <- <-]. unfold emits. simpl. now rewrite H. Qed.

Lemma emits_do_connect ok : ok EvConnect = true -> obeys (emits ok) do_connect.
Proof. intros H ? ? ? ? ? [= <- <- <-]. unfold emits. simpl. now rewrite H. Qed.

Create HintDb emits_db.

#[global] Hint Resolve emits_emit emits_print emits_set_comm emits_set_exp_id
  emits_set_is_exp_ids_detected emits_set_is_final_logs_downloaded
  emits_do_open_sftp emits_do_sftp_get emits_do_exec emits_do_sleep
  emits_do_connect : emits_db.
#[global] Hint Extern 1 (_ = true) => reflexivity : emits_db.
#[global] Hint Extern 1 (forall _, _ = true) => intros; reflexivity : emits_db.

Definition not_archive_start (e : event) : bool := negb (is_archive_start e).

Definition is_mkdir (e : event) : bool :=
  match e with
  | EvMkdir _ => true
  | _ => false
  end.

Definition not_mkdir (e : event) : bool := negb (is_mkdir e).

(** How many times [download_logs] was entered: its first action is
    the one [mkdir]. *)
Definition download_logs_calls (evs : list event) : nat :=
  length (List.filter is_mkdir evs).

Lemma filter_none {A} (p : A -> bool) (l : list A) :
  forallb (fun x => negb (p x)) l = true -> List.filter p l = [].
Proof.
  induction l as [| x l IH]; simpl; [reflexivity |].
  intros [Hx Hl]%andb_true_iff. apply negb_true_iff in Hx. rewrite Hx. auto.
Qed.

Lemma download_logs_no_archive_start gids :
  obeys (emits not_archive_start) (download_logs gids).
Proof. unfold download_logs. obeys_auto emits_db. Qed.

(** [download_logs] leaves the monitor as it is. *)
Definition unchanged (m m' : Monitor) (_ : list event) : Prop := m' = m.

#[global] Instance unchanged_sequential : Sequential unchanged.
Proof. split; unfold unchanged; congruence. Qed.

Lemma unchanged_emit e : obeys unchanged (emit e).
Proof. primitive unchanged. Qed.
Lemma unchanged_print s : obeys unchanged (print s).
Proof. primitive unchanged. Qed.
Lemma unchanged_do_open_sftp : obeys unchanged do_open_sftp.
Proof. primitive unchanged. Qed.
Lemma unchanged_do_sftp_get a b : obeys unchanged (do_sftp_get a b).
Proof. primitive unchanged. Qed.

Create HintDb unchanged_db.
#[global] Hint Resolve unchanged_emit unchanged_print unchanged_do_open_sftp
  unchanged_do_sftp_get : unchanged_db.

Lemma download_logs_unchanged gids : obeys unchanged (download_logs gids).
Proof. unfold download_logs. obeys_auto unchanged_db. Qed.

Lemma download_logs_calls_once gids w m r m' evs :
  download_logs gids w m = (r, m', evs) -> download_logs_calls evs = 1%nat.
Proof.
  unfold download_logs. intros H.
  peel H a1 m1 e1 H1; [| discriminate]. injection H1 as <- <- <-.
  peel H a2 m2 e2 H2; [| discriminate]. injection H2 as <- <- <-.
  match type of H with
  | ?K _ _ = _ => assert (obeys (emits not_mkdir) K) as HK by obeys_auto emits_db
  end.
  apply HK in H. unfold download_logs_calls. simpl.
  rewrite (filter_none is_mkdir _ H). reflexivity.
Qed.

(** ** Log archival *)

(** Once the flag is set, [download_logs_before_shutdown] does nothing. *)
Lemma download_logs_before_shutdown_done SM gids line w m :
  is_final_logs_downloaded m = true ->
  download_logs_before_shutdown SM gids line w m = (Ret tt, m, []).
Proof.
  intros Hf. unfold download_logs_before_shutdown, mbind, M_bind, self.
  rewrite Hf, andb_false_r. reflexivity.
Qed.

(** The first detection: the flag is set, then [download_logs] is
    entered once, whatever becomes of the transfers. *)
Lemma download_logs_before_shutdown_first SM gids line w m r m' evs :
  contains SM line = true ->
  is_final_logs_downloaded m = false ->
  download_logs_before_shutdown SM gids line w m = (r, m', evs) ->
  is_final_logs_downloaded m' = true /\
  archive_count evs = 1%nat /\
  download_logs_calls evs = 1%nat.
Proof.
  intros Hc Hf H. unfold download_logs_before_shutdown in H.
  peel H a1 m1 e1 H1; [| discriminate]. injection H1 as <- <- <-.
  rewrite Hc, Hf in H. simpl in H.
  peel H a2 m2 e2 H2; [| discriminate]. injection H2 as <- <- <-.
  peel H a3 m3 e3 H3; [| discriminate]. injection H3 as <- <- <-.
  match type of H with
  | (mbind ?k ?c) _ ?m0 = _ =>
      assert (obeys frame (mbind k c)) as HF by obeys_auto frame_db;
      assert (obeys (emits not_archive_start) (mbind k c)) as HA
        by (apply obeys_bind; [apply _ | apply download_logs_no_archive_start |];
            obeys_auto emits_db);
      pose proof (HF _ _ _ _ _ H) as (_ & _ & _ & Hflag);
      pose proof (HA _ _ _ _ _ H) as Hnone
  end.
  split; [apply Hflag; reflexivity |].
  apply bind_inv in H as [(a4 & m4 & e4 & e5 & H4 & H5 & ->) | (e & H4 & ->)].
  - injection H5 as <- <- <-. unfold emits in Hnone.
    rewrite forallb_app in Hnone. apply andb_true_iff in Hnone as [Hn4 _].
    unfold archive_count, download_logs_calls. simpl.
    rewrite !List.filter_app. simpl. rewrite (filter_none _ _ Hn4). simpl.
    rewrite app_nil_r. split; [reflexivity |].
    exact (download_logs_calls_once _ _ _ _ _ _ H4).
  - unfold archive_count. simpl. rewrite (filter_none _ _ Hnone). simpl.
    split; [reflexivity |].
    exact (download_logs_calls_once _ _ _ _ _ _ H4).
Qed.

Definition shutdown_line : string := "INFO launch: SHUTDOWN".

Definition sftp_fails_world : World :=
  sample_world [sample_instance "m1"] true
    (sample_session (Some "0.52 0.58 0.59 2/871 12345")
                    (Some (gpu_header +:+ str1 LF +:+ spec_row +:+ str1 LF))
                    (Some shutdown_line) GetSSHException)
    "09:00:02.000".




(** Three consecutive calls with the marker in the line, from a
    monitor that has not archived yet, the flag left as it is between
    the calls: the branch that fetches and archives is entered once,
    [download_logs] is entered once, whatever becomes of the transfers,
    and the second and third call do nothing. *)
Lemma archive_once_in_three_calls SM
    g1 g2 g3 l1 l2 l3 w1 w2 w3 m1 m2 m3 r1 r2 r3 m1' m2' m3' e1 e2 e3 :
  contains SM l1 = true -> contains SM l2 = true -> contains SM l3 = true ->
  is_final_logs_downloaded m1 = false ->
  download_logs_before_shutdown SM g1 l1 w1 m1 = (r1, m1', e1) ->
  is_final_logs_downloaded m2 = is_final_logs_downloaded m1' ->
  download_logs_before_shutdown SM g2 l2 w2 m2 = (r2, m2', e2) ->
  is_final_logs_downloaded m3 = is_final_logs_downloaded m2' ->
  download_logs_before_shutdown SM g3 l3 w3 m3 = (r3, m3', e3) ->
  archive_count (e1 ++ e2 ++ e3) = 1%nat /\
  download_logs_calls (e1 ++ e2 ++ e3) = 1%nat /\
  e2 = [] /\ e3 = [].
Proof.
  intros C1 C2 C3 Hf H1 F2 H2 F3 H3.
  destruct (download_logs_before_shutdown_first _ _ _ _ _ _ _ _ C1 Hf H1)
    as (Hf1 & Ha & Hd).
  rewrite Hf1 in F2.
  rewrite (download_logs_before_shutdown_done _ _ _ _ _ F2) in H2.
  injection H2 as <- <- <-. rewrite F2 in F3.
  rewrite (download_logs_before_shutdown_done _ _ _ _ _ F3) in H3.
  injection H3 as <- <- <-.
  rewrite !app_nil_r. auto.
Qed.

Definition marker_world (now : string) : World :=
  sample_world [sample_instance "m1"] true
    (sample_session (Some "0.52 0.58 0.59 2/871 12345")
                    (Some (gpu_header +:+ str1 LF +:+ spec_row +:+ str1 LF))
                    (Some shutdown_line) GetOk)
    now.

Definition first_archival : result unit * Monitor * list event :=
  download_logs_before_shutdown "SHUTDOWN" [0] shutdown_line
    (marker_world "09:00:03.000") sample_monitor.

Example archive_once_in_three_calls_sample :
  archive_count (first_archival.2 ++ [] ++ []) = 1%nat /\
  download_logs_calls (first_archival.2 ++ [] ++ []) = 1%nat /\
  @nil event = [] /\ @nil event = [].
Proof.
  apply (archive_once_in_three_calls "SHUTDOWN" [0] [0] [0]
           shutdown_line shutdown_line shutdown_line
           (marker_world "09:00:03.000") (marker_world "09:00:04.000")
           (marker_world "09:00:05.000")
           sample_monitor first_archival.1.2 first_archival.1.2
           first_archival.1.1 (Ret tt) (Ret tt)
           first_archival.1.2 first_archival.1.2 first_archival.1.2
           first_archival.2 [] []); try reflexivity.
Qed.

(** ** The run loop *)

Lemma observe_stop_none w m :
  stop_request w = false -> observe_stop w m = (Ret tt, m, []).
Proof. intros H. unfold observe_stop, mbind, M_bind, ask. rewrite H. reflexivity. Qed.


Lemma write_then_ret {A} s (a : A) w m :
  (_write (WStr s);; mret a) w m =
  (Ret a,
   {| name := name m; sleep := sleep m;
      comm := set_result ([(EStr "??", s)], clock w) (comm m);
      exp_ids := exp_ids m;
      is_exp_ids_detected := is_exp_ids_detected m;
      is_final_logs_downloaded := is_final_logs_downloaded m |},
   [EvComm (set_result ([(EStr "??", s)], clock w) (comm m))]).
Proof. reflexivity. Qed.

Definition connection_down (found : list Instance) (now : string) : World :=
  sample_world found false (sample_session None None None GetOk) now.

Definition down_twice : list World :=
  [connection_down [sample_instance "m1"] "09:00:01.000";
   connection_down [sample_instance "m1"] "09:00:02.000";
   connection_down [sample_instance "m1"] "09:00:03.000"].

(** C6, as stated, fails on the wait: two connection attempts fail in
    a row and the worker sleeps nowhere, between them or after. *)
Lemma no_wait_between_connection_attempts :
  (run "SHUTDOWN" down_twice NotStarted sample_monitor).1.1 = Connecting /\
  List.filter is_connect (run "SHUTDOWN" down_twice NotStarted sample_monitor).2
    = [EvConnect; EvConnect] /\
  List.filter is_sleep (run "SHUTDOWN" down_twice NotStarted sample_monitor).2 = [].
Proof. repeat split; reflexivity. Qed.

(** C6, amended: when establishing the session fails, the worker
    publishes the status ["Could not connect!"] and goes back to the test
    of the connecting loop at once, without a wait (the only sleep of
    [run] follows a completed poll cycle); it stays in the connecting
    state and does not terminate. *)
Theorem connect_failure_retries_at_once SM w m i :
  should_stop (comm m) = false ->
  stop_request w = false ->
  _get_instance_by_name (name m) (instances w) = Ret (Some i) ->
  connects w = false ->
  exists m',
    run_step SM w Connecting m = (Connecting, m', [EvConnect; EvComm (comm m')]) /\
    comm m' = set_result ([(EStr "??", "Could not connect!")], clock w) (comm m) /\
    List.filter is_sleep [EvConnect; EvComm (comm m')] = [].
Proof.
  intros Hs Hw Hi Hc.
  exists {| name := name m; sleep := sleep m;
            comm := set_result ([(EStr "??", "Could not connect!")], clock w) (comm m);
            exp_ids := exp_ids m;
            is_exp_ids_detected := is_exp_ids_detected m;
            is_final_logs_downloaded := is_final_logs_downloaded m |}.
  split.
  { unfold run_step, iteration, connecting_iteration.
    unfold mbind at 1. unfold M_bind at 1. rewrite (observe_stop_none _ _ Hw).
    unfold mbind at 1. unfold M_bind at 1. unfold self at 1. rewrite Hs.
    unfold mbind at 1. unfold M_bind at 1. unfold ask at 1.
    unfold mbind at 1. unfold M_bind at 1. unfold lift at 1. rewrite Hi.
    unfold try_except, do_connect.
    unfold mbind at 1. unfold M_bind at 1. rewrite Hc.
    rewrite write_then_ret. reflexivity. }
  split; reflexivity.
Qed.

Lemma connect_failure_retries_at_once_witness :
  exists m',
    run_step "SHUTDOWN" (connection_down [sample_instance "m1"] "09:00:02.000")
             Connecting sample_monitor
    = (Connecting, m', [EvConnect; EvComm (comm m')]) /\
    comm m' = set_result ([(EStr "??", "Could not connect!")], "09:00:02.000")
                         (comm sample_monitor) /\
    List.filter is_sleep [EvConnect; EvComm (comm m')] = [].
Proof.
  apply (connect_failure_retries_at_once "SHUTDOWN"
           (connection_down [sample_instance "m1"] "09:00:02.000")
           sample_monitor (sample_instance "m1")); reflexivity.
Defined.

(** *** How [run] can end *)


Ltac peel_ret H a m1 e1 H1 :=
  apply bind_inv in H as [(a & m1 & e1 & ? & H1 & H & ->) | (? & _ & [=])].




Lemma run_terminated SM ws c m : run SM ws (Terminated c) m = (Terminated c, m, []).
Proof. destruct ws; reflexivity. Qed.

Lemma run_cons SM w ws ph m ph1 m1 e1 :
  (forall c0, ph <> Terminated c0) ->
  run_step SM w ph m = (ph1, m1, e1) ->
  run SM (w :: ws) ph m =
  (let '(ph2, m2, e2) := run SM ws ph1 m1 in (ph2, m2, e1 ++ e2)).
Proof.
  intros Hph Hst. simpl. rewrite Hst.
  destruct ph; try reflexivity. exfalso. now apply (Hph c).
Qed.







(** ** Publication of the snapshot *)

Lemma observable_app e1 e2 : observable (e1 ++ e2) = observable e1 ++ observable e2.
Proof. unfold observable. apply omap_app. Qed.

(** Steps that assign nothing in [comm]. *)
Definition quiet (m m' : Monitor) (evs : list event) : Prop :=
  comm m' = comm m /\ observable evs = [].

#[global] Instance quiet_sequential : Sequential quiet.
Proof.
  split.
  - intros m. split; reflexivity.
  - intros m1 m2 m3 e1 e2 [H1 O1] [H2 O2]. split; [congruence |].
    rewrite observable_app, O1, O2. reflexivity.
Qed.

Lemma quiet_emit e : observable [e] = [] -> obeys quiet (emit e).
Proof. intros H ? ? ? ? ? [= <- <- <-]. split; [reflexivity | exact H]. Qed.
Lemma quiet_print s : obeys quiet (print s).
Proof. primitive quiet. Qed.
Lemma quiet_set_exp_id g v : obeys quiet (set_exp_id g v).
Proof. primitive quiet. Qed.
Lemma quiet_set_is_exp_ids_detected b : obeys quiet (set_is_exp_ids_detected b).
Proof. primitive quiet. Qed.
Lemma quiet_set_is_final_logs_downloaded b : obeys quiet (set_is_final_logs_downloaded b).
Proof. primitive quiet. Qed.
Lemma quiet_do_open_sftp : obeys quiet do_open_sftp.
Proof. primitive quiet. Qed.
Lemma quiet_do_sftp_get a b : obeys quiet (do_sftp_get a b).
Proof. primitive quiet. Qed.
Lemma quiet_do_exec cmd : obeys quiet (do_exec cmd).
Proof. primitive quiet. Qed.
Lemma quiet_do_sleep : obeys quiet do_sleep.
Proof. primitive quiet. Qed.

Create HintDb quiet_db.
#[global] Hint Resolve quiet_emit quiet_print quiet_set_exp_id
  quiet_set_is_exp_ids_detected quiet_set_is_final_logs_downloaded
  quiet_do_open_sftp quiet_do_sftp_get quiet_do_exec quiet_do_sleep : quiet_db.
#[global] Hint Extern 1 (observable _ = []) => reflexivity : quiet_db.

Lemma quiet_download_logs gids : obeys quiet (download_logs gids).
Proof. unfold download_logs. obeys_auto quiet_db. Qed.

Lemma quiet_scan_lines g ls : obeys quiet (scan_lines g ls).
Proof. induction ls as [| l ls IH]; simpl; obeys_auto quiet_db. Qed.

#[global] Hint Resolve quiet_download_logs quiet_scan_lines : quiet_db.

Lemma quiet__initial_detect_ids gids : obeys quiet (_initial_detect_ids gids).
Proof. unfold _initial_detect_ids. obeys_auto quiet_db. Qed.

Lemma quiet_monitor_exp_id line g : obeys quiet (monitor_exp_id line g).
Proof. unfold monitor_exp_id. obeys_auto quiet_db. Qed.

Lemma quiet_download_logs_before_shutdown SM gids line :
  obeys quiet (download_logs_before_shutdown SM gids line).
Proof. unfold download_logs_before_shutdown. obeys_auto quiet_db. Qed.

#[global] Hint Resolve quiet__initial_detect_ids quiet_monitor_exp_id
  quiet_download_logs_before_shutdown : quiet_db.

Lemma do_exec_ret cmd w m out m1 e1 :
  do_exec cmd w m = (Ret out, m1, e1) ->
  exec_command (session w) cmd = Some out /\ m1 = m /\ e1 = [EvExec cmd].
Proof.
  unfold do_exec. destruct (exec_command (session w) cmd); intros [= <- <- <-]; auto.
Qed.

Lemma lift_ret {A} (r : result A) w m a m1 e1 :
  lift r w m = (Ret a, m1, e1) -> r = Ret a /\ m1 = m /\ e1 = [].
Proof. intros [= <- <- <-]. auto. Qed.

Definition with_comm (c : Comm) (m : Monitor) : Monitor :=
  {| name := name m; sleep := sleep m; comm := c; exp_ids := exp_ids m;
     is_exp_ids_detected := is_exp_ids_detected m;
     is_final_logs_downloaded := is_final_logs_downloaded m |}.

Lemma set_comm_eq f w m : set_comm f w m = (Ret tt, with_comm (f (comm m)) m, [EvComm (f (comm m))]).
Proof. reflexivity. Qed.

Definition cycle_world (out_load row line now : string) : World :=
  sample_world [sample_instance "m1"] true
    (sample_session (Some out_load) (Some (gpu_header +:+ str1 LF +:+ row +:+ str1 LF))
                    (Some line) GetOk)
    now.

Definition two_cycles : list World :=
  [cycle_world "" "" "" "09:00:01.000";
   cycle_world "" "" "" "09:00:02.000";
   cycle_world "0.52 0.58 0.59 2/871 12345" "12 %, 34 %, 11441 MiB" "epoch 1" "09:00:03.000";
   cycle_world "0.99 0.80 0.61 3/871 12399" "99 %, 80 %, 11441 MiB" "epoch 2" "09:00:04.000"].

(** Load of the second cycle, GPU samples and lines of the first. *)
Definition torn_snapshot : Comm :=
  {| should_stop := false;
     result_ := ([(EStr "?", "epoch 1")], "09:00:03.000");
     load := "0.99";
     gpu := [ {| util := "12%"; used_mem := "34%"; total_mem := "11" |} ] |}.

Definition first_snapshot : Comm :=
  {| should_stop := false;
     result_ := ([(EStr "?", "epoch 1")], "09:00:03.000");
     load := "0.52";
     gpu := [ {| util := "12%"; used_mem := "34%"; total_mem := "11" |} ] |}.

Definition second_snapshot : Comm :=
  {| should_stop := false;
     result_ := ([(EStr "?", "epoch 2")], "09:00:04.000");
     load := "0.99";
     gpu := [ {| util := "99%"; used_mem := "80%"; total_mem := "11" |} ] |}.

(** C1, as stated, fails: during the second of two poll cycles a
    reader of [comm] finds the load of the second cycle beside the GPU
    samples and the lines of the first; this content is not the one left
    by any iteration. *)
Lemma torn_snapshot_observable :
  In torn_snapshot (observable (run "SHUTDOWN" two_cycles NotStarted sample_monitor).2) /\
  ~ In torn_snapshot
       (comm sample_monitor :: published "SHUTDOWN" two_cycles NotStarted sample_monitor) /\
  published "SHUTDOWN" two_cycles NotStarted sample_monitor !! 2%nat
    = Some first_snapshot /\
  published "SHUTDOWN" two_cycles NotStarted sample_monitor !! 3%nat
    = Some second_snapshot.
Proof.
  split; [vm_compute; do 5 right; left; reflexivity |].
  split; [| split; reflexivity].
  vm_compute. intros H. repeat (destruct H as [H | H]; [discriminate H |]). exact H.
Qed.

(** C1, amended: the snapshot is not published atomically. A poll
    cycle that completes makes three separate assignments on the shared
    [comm]: the load, then the GPU samples, then the pair of lines and
    timestamp as one tuple. Nothing else is assigned in between, so a
    reader can find the new load, or the new load and GPU samples,
    beside the lines of the previous publication; after the third
    assignment load, GPU samples and lines all come from this cycle. *)
Theorem poll_cycle_assigns_field_by_field SM w m m' evs :
  poll_cycle SM w m = (Ret tt, m', evs) ->
  exists out_load tok out_gpu g lines,
    exec_command (session w) "cat /proc/loadavg" = Some out_load /\
    index (split " " out_load) 0 = Ret tok /\
    exec_command (session w) nvidia_smi_cmd = Some out_gpu /\
    parse_gpu_output out_gpu = Ret g /\
    let c1 := set_load (strip tok) (comm m) in
    let c2 := set_gpu g c1 in
    let c3 := set_result (lines, clock w) c2 in
    observable evs = [c1; c2; c3] /\
    comm m' = c3 /\
    c3 = {| should_stop := should_stop (comm m); result_ := (lines, clock w);
            load := strip tok; gpu := g |}.
Proof.
  intros H. unfold poll_cycle in H.
  peel_ret H out_load y1 z1 H1. apply do_exec_ret in H1 as (Hload & -> & ->).
  peel_ret H tok y2 z2 H2. apply lift_ret in H2 as (Htok & -> & ->).
  peel_ret H x3 y3 z3 H3. rewrite set_comm_eq in H3. injection H3 as <- <- <-.
  peel_ret H out_gpu y4 z4 H4. apply do_exec_ret in H4 as (Hgpu & -> & ->).
  peel_ret H g y5 z5 H5. apply lift_ret in H5 as (Hg & -> & ->).
  peel_ret H x6 y6 z6 H6. rewrite set_comm_eq in H6. injection H6 as <- <- <-.
  peel_ret H out_ls y7 z7 H7. apply do_exec_ret in H7 as (_ & -> & ->).
  peel_ret H ids y8 z8 H8. apply lift_ret in H8 as (_ & -> & ->).
  peel_ret H x9 y9 z9 H9. injection H9 as <- <- <-.
  peel_ret H x10 y10 z10 H10.
  assert (quiet (with_comm (set_gpu g (comm (with_comm (set_load (strip tok) (comm m)) m)))
                   (with_comm (set_load (strip tok) (comm m)) m)) y10 z10) as [Q1 Q2].
  { revert H10. match goal with |- ?c _ _ = _ -> _ => assert (obeys quiet c) as HQ by obeys_auto quiet_db end.
    apply HQ. }
  peel_ret H lines y11 z11 H11.
  assert (quiet y10 y11 z11) as [Q3 Q4].
  { revert H11. match goal with |- ?c _ _ = _ -> _ => assert (obeys quiet c) as HQ by obeys_auto quiet_db end.
    apply HQ. }
  peel_ret H x12 y12 z12 H12.
  unfold _write, mbind, M_bind, ask in H12. rewrite set_comm_eq in H12.
  injection H12 as <- <- <-. injection H as <- <-.
  exists out_load, tok, out_gpu, g, lines.
  repeat split; auto.
  - rewrite !observable_app, Q2, Q4. simpl. rewrite Q3, Q1. reflexivity.
  - simpl. rewrite Q3, Q1. reflexivity.
Qed.

Lemma poll_cycle_assigns_field_by_field_witness :
  exists out_load tok out_gpu g lines,
    exec_command (session (marker_world "09:00:03.000")) "cat /proc/loadavg" = Some out_load /\
    index (split " " out_load) 0 = Ret tok /\
    exec_command (session (marker_world "09:00:03.000")) nvidia_smi_cmd = Some out_gpu /\
    parse_gpu_output out_gpu = Ret g /\
    let c1 := set_load (strip tok) (comm sample_monitor) in
    let c2 := set_gpu g c1 in
    let c3 := set_result (lines, clock (marker_world "09:00:03.000")) c2 in
    observable (poll_cycle "SHUTDOWN" (marker_world "09:00:03.000") sample_monitor).2
      = [c1; c2; c3] /\
    comm (poll_cycle "SHUTDOWN" (marker_world "09:00:03.000") sample_monitor).1.2 = c3 /\
    c3 = {| should_stop := should_stop (comm sample_monitor);
            result_ := (lines, clock (marker_world "09:00:03.000"));
            load := strip tok; gpu := g |}.
Proof.
  apply (poll_cycle_assigns_field_by_field "SHUTDOWN" (marker_world "09:00:03.000")
           sample_monitor).
  reflexivity.
Defined.

(** ** Archival over a whole run

    Along any run the archiving branch is entered at most once: it is
    entered only with the flag false and leaves it true for good, and
    the flag goes from false to true in no other way. *)

Definition once (m m' : Monitor) (evs : list event) : Prop :=
  (archive_count evs <= 1)%nat /\
  (is_final_logs_downloaded m = true ->
   archive_count evs = 0%nat /\ is_final_logs_downloaded m' = true) /\
  (is_final_logs_downloaded m = false ->
   (archive_count evs = 1%nat <-> is_final_logs_downloaded m' = true)).

Lemma archive_count_app e1 e2 :
  archive_count (e1 ++ e2) = (archive_count e1 + archive_count e2)%nat.
Proof. unfold archive_count. rewrite List.filter_app, length_app. reflexivity. Qed.

Lemma once_skip m : once m m [].
Proof.
  unfold once, archive_count. simpl. split; [lia |]. split; [auto |].
  intros F. split; [discriminate | congruence].
Qed.

#[global] Instance once_sequential : Sequential once.
Proof.
  split; [apply once_skip |].
  intros m1 m2 m3 e1 e2 (A1 & B1 & C1) (A2 & B2 & C2).
  unfold once. rewrite archive_count_app.
  destruct (is_final_logs_downloaded m1) eqn:F1;
    destruct (is_final_logs_downloaded m2) eqn:F2.
  - destruct (B1 eq_refl) as [Z1 _]. destruct (B2 eq_refl) as [Z2 F3].
    split; [lia |]. split; [intros _; split; [lia | exact F3] | discriminate].
  - destruct (B1 eq_refl) as [_ [=]].
  - destruct (C1 eq_refl) as [_ O1]. specialize (O1 eq_refl).
    destruct (B2 eq_refl) as [Z2 F3].
    split; [lia |]. split; [discriminate |].
    intros _. split; [intros _; exact F3 | intros _; lia].
  - destruct (C1 eq_refl) as [N1 _].
    assert (archive_count e1 = 0%nat) as Z1.
    { destruct (archive_count e1) as [| [| n]]; [reflexivity | | lia].
      discriminate (N1 eq_refl). }
    destruct (C2 eq_refl) as [P2 Q2].
    split; [lia |]. split; [discriminate |].
    intros _. rewrite Z1. simpl. split; assumption.
Qed.

Ltac once_primitive :=
  intros ? ? ? ? ? [= <- <- <-]; apply once_skip.

Lemma once_emit e : is_archive_start e = false -> obeys once (emit e).
Proof.
  intros H w m r m' evs [= <- <- <-].
  destruct (once_skip m) as (A & B & C).
  unfold once, archive_count. simpl. rewrite H. exact (conj A (conj B C)).
Qed.

Lemma once_print s : is_archive_start (EvPrint s) = false -> obeys once (print s).
Proof. apply once_emit. Qed.

Lemma once_set_comm f : obeys once (set_comm f).
Proof.
  intros w m r m' evs [= <- <- <-].
  destruct (once_skip m) as (A & B & C). exact (conj A (conj B C)).
Qed.
Lemma once_set_exp_id g v : obeys once (set_exp_id g v).
Proof.
  intros w m r m' evs [= <- <- <-].
  destruct (once_skip m) as (A & B & C). exact (conj A (conj B C)).
Qed.
Lemma once_set_is_exp_ids_detected b : obeys once (set_is_exp_ids_detected b).
Proof.
  intros w m r m' evs [= <- <- <-].
  destruct (once_skip m) as (A & B & C). exact (conj A (conj B C)).
Qed.
Lemma once_do_open_sftp : obeys once do_open_sftp.
Proof.
  intros w m r m' evs [= <- <- <-].
  destruct (once_skip m) as (A & B & C). exact (conj A (conj B C)).
Qed.
Lemma once_do_sftp_get a b : obeys once (do_sftp_get a b).
Proof.
  intros w m r m' evs [= <- <- <-].
  destruct (once_skip m) as (A & B & C). exact (conj A (conj B C)).
Qed.
Lemma once_do_exec cmd : obeys once (do_exec cmd).
Proof.
  intros w m r m' evs [= <- <- <-].
  destruct (once_skip m) as (A & B & C). exact (conj A (conj B C)).
Qed.
Lemma once_do_sleep : obeys once do_sleep.
Proof.
  intros w m r m' evs [= <- <- <-].
  destruct (once_skip m) as (A & B & C). exact (conj A (conj B C)).
Qed.
Lemma once_do_connect : obeys once do_connect.
Proof.
  intros w m r m' evs [= <- <- <-].
  destruct (once_skip m) as (A & B & C). exact (conj A (conj B C)).
Qed.

Lemma once_download_logs_before_shutdown SM gids line :
  obeys once (download_logs_before_shutdown SM gids line).
Proof.
  intros w m r m' evs H.
  destruct (is_final_logs_downloaded m) eqn:Hf.
  - rewrite (download_logs_before_shutdown_done _ _ _ _ _ Hf) in H.
    injection H as <- <- <-. apply once_skip.
  - destruct (contains SM line) eqn:Hc.
    + destruct (download_logs_before_shutdown_first _ _ _ _ _ _ _ _ Hc Hf H)
        as (Hf' & Ha & _).
      unfold once. rewrite Ha, Hf, Hf'.
      split; [lia |]. split; [discriminate |]. intros _. split; reflexivity.
    + unfold download_logs_before_shutdown, mbind, M_bind, self in H.
      rewrite Hc in H. simpl in H. injection H as <- <- <-. apply once_skip.
Qed.

Create HintDb once_db.
#[global] Hint Resolve once_emit once_print once_set_comm once_set_exp_id
  once_set_is_exp_ids_detected once_do_open_sftp once_do_sftp_get once_do_exec
  once_do_sleep once_do_connect once_download_logs_before_shutdown : once_db.
#[global] Hint Extern 1 (_ = false) => reflexivity : once_db.

Lemma once__write r : obeys once (_write r).
Proof. unfold _write. obeys_auto once_db. Qed.

Lemma once_download_logs gids : obeys once (download_logs gids).
Proof. unfold download_logs. obeys_auto once_db. Qed.

Lemma once_scan_lines g ls : obeys once (scan_lines g ls).
Proof. induction ls as [| l ls IH]; simpl; obeys_auto once_db. Qed.

#[global] Hint Resolve once__write once_download_logs once_scan_lines : once_db.

Lemma once__initial_detect_ids gids : obeys once (_initial_detect_ids gids).
Proof. unfold _initial_detect_ids. obeys_auto once_db. Qed.

Lemma once_monitor_exp_id line g : obeys once (monitor_exp_id line g).
Proof. unfold monitor_exp_id. obeys_auto once_db. Qed.

#[global] Hint Resolve once__initial_detect_ids once_monitor_exp_id : once_db.

Lemma once_poll_cycle SM : obeys once (poll_cycle SM).
Proof. unfold poll_cycle. obeys_auto once_db. Qed.

#[global] Hint Resolve once_poll_cycle : once_db.

Lemma once_iteration SM ph : obeys once (iteration SM ph).
Proof.
  destruct ph; simpl;
    unfold run_prologue, connecting_iteration, polling_iteration;
    obeys_auto once_db.
Qed.

Lemma once_observe_stop : obeys once observe_stop.
Proof. unfold observe_stop. obeys_auto once_db. Qed.

Lemma once_run_step SM w ph m ph' m' evs :
  run_step SM w ph m = (ph', m', evs) -> once m m' evs.
Proof.
  unfold run_step.
  destruct ((observe_stop;; iteration SM ph) w m) as [[r m1] e1] eqn:H.
  assert (once m m1 e1) as Ho.
  { revert H. apply obeys_bind; [apply _ | apply once_observe_stop |].
    intros _. apply once_iteration. }
  destruct r; intros [= <- <- <-]; exact Ho.
Qed.

Lemma once_run SM ws ph m ph' m' evs :
  run SM ws ph m = (ph', m', evs) -> once m m' evs.
Proof.
  revert ph m ph' m' evs. induction ws as [| w ws IH]; intros ph m ph' m' evs H.
  - injection H as <- <- <-. apply seq_skip.
  - destruct ph as [| | | c].
    1-3: simpl in H;
      match type of H with
      | context [run_step ?s ?x ?p ?y] =>
          destruct (run_step s x p y) as [[ph1 m1] e1] eqn:Hst;
          destruct (run SM ws ph1 m1) as [[ph2 m2] e2] eqn:Hr
      end;
      injection H as <- <- <-;
      eapply seq_comp; [eapply once_run_step | eapply IH]; eauto.
    rewrite run_terminated in H. injection H as <- <- <-. apply seq_skip.
Qed.

(** Whatever the worlds, a monitor enters the archiving branch at most
    once in its lifetime. *)
Lemma run_archives_at_most_once SM ws m ph' m' evs :
  run SM ws NotStarted m = (ph', m', evs) -> (archive_count evs <= 1)%nat.
Proof. intros H. apply once_run in H as (H & _). exact H. Qed.

(** *** Completed poll cycles that read the marker *)






Lemma observe_stop_flag w m r m0 e0 :
  observe_stop w m = (r, m0, e0) ->
  is_final_logs_downloaded m0 = is_final_logs_downloaded m /\ archive_count e0 = 0%nat.
Proof.
  unfold observe_stop, mbind, M_bind, ask. destruct (stop_request w); simpl.
  - intros [= <- <- <-]. split; reflexivity.
  - intros [= <- <- <-]. split; reflexivity.
Qed.


Definition marker_cycle_1 : phase * Monitor * list event :=
  run_step "SHUTDOWN" (marker_world "09:00:03.000") Polling sample_monitor.




(** The cycle after a failed archival, the marker still in the line:
    nothing is fetched. *)
Example no_retry_in_next_cycle :
  let before := run "SHUTDOWN" [sftp_fails_world; sftp_fails_world; sftp_fails_world]
                    NotStarted sample_monitor in
  let after := run "SHUTDOWN" [marker_world "09:00:05.000"] before.1.1 before.1.2 in
  before.1.1 = Polling /\
  archive_count before.2 = 1%nat /\
  In (EvPrint "SFTP failed") before.2 /\
  is_final_logs_downloaded before.1.2 = true /\
  List.filter (fun e => match e with EvSftpGet _ _ => true | _ => false end) after.2 = [] /\
  archive_count after.2 = 0%nat.
Proof.
  repeat split; try reflexivity.
  vm_compute. repeat (first [left; reflexivity | right]).
Qed.

(** ** The parsing examples of the specification *)

Example load_token :
  strip (List.hd "" (split " " "0.52 0.58 0.59 2/871 12345")) = "0.52".
Proof. reflexivity. Qed.

Example last_line_collapses_redraws :
  extract_last_line
    ("10%|#  |" +:+ str1 CR +:+ "55%|## |" +:+ str1 CR +:+ "epoch 3 done"
     +:+ String ESC "[A" +:+ str1 LF)
  = "epoch 3 done".
Proof. reflexivity. Qed.

Example log_paths :
  remote_log 12 = "/home/ubuntu/experiment_12.log" /\
  local_log "m1" 0 = "remote/logs/m1/experiment_0.log".
Proof. split; reflexivity. Qed.

Example file_ids_sorted :
  (ids ← parse_file_ids (split (str1 LF)
      ("experiment_10.log" +:+ str1 LF +:+ "experiment_2.log" +:+ str1 LF));
   Ret (merge_sort Z.le ids)) = Ret [2; 10].
Proof. reflexivity. Qed.

Example split_csv : split "," "12 %, 34 %, 11441 MiB" = ["12 %"; " 34 %"; " 11441 MiB"].
Proof. reflexivity. Qed.

Example split_multi : split "ab" "xabyabab" = ["x"; "y"; ""; ""].
Proof. reflexivity. Qed.

Example replace_spaces : replace " " "" " 34 %" = "34%".
Proof. reflexivity. Qed.

Example strip_load : strip (" 0.52 " +:+ str1 LF) = "0.52".
Proof. reflexivity. Qed.

Example int_ok : py_int " 7160 " = Some 7160.
Proof. reflexivity. Qed.

Example int_bad : py_int "71x" = None.
Proof. reflexivity. Qed.

Example str_int_ok : py_str_int 11441 = "11441" /\ py_str_int 0 = "0" /\ py_str_int (-12) = "-12".
Proof. repeat split; reflexivity. Qed.


(** ** A transient failure

    The remote commands fail during two cycles, then succeed: each
    failure is published as a status, the worker reconnects, and polls
    again. *)

Definition broken_session_world (now : string) : World :=
  sample_world [sample_instance "m1"] true (sample_session None None None GetOk) now.

Definition transient_failure : list World :=
  [cycle_world "" "" "" "09:00:01.000";
   cycle_world "" "" "" "09:00:02.000";
   broken_session_world "09:00:03.000";
   broken_session_world "09:00:04.000";
   broken_session_world "09:00:05.000";
   broken_session_world "09:00:06.000";
   cycle_world "0.52 0.58 0.59 2/871 12345" spec_row "epoch 1" "09:00:07.000"].

Example resumes_after_transient_failure :
  (run "SHUTDOWN" transient_failure NotStarted sample_monitor).1.1 = Polling /\
  (fun c => result_ c) <$> published "SHUTDOWN" transient_failure NotStarted sample_monitor
  = [([(EStr "??", "Connecting...")], "09:00:01.000");
     ([(EStr "??", "DONE, connected!")], "09:00:02.000");
     ([(EStr "??", "Could not connect!")], "09:00:03.000");
     ([(EStr "??", "DONE, connected!")], "09:00:04.000");
     ([(EStr "??", "Could not connect!")], "09:00:05.000");
     ([(EStr "??", "DONE, connected!")], "09:00:06.000");
     ([(EStr "?", "epoch 1")], "09:00:07.000")].
Proof. split; reflexivity. Qed.

(** * Further properties of the code *)

(** ** Pieces of a split text *)

Lemma split_char_length (c : ascii) (s : string) :
  length (split (str1 c) s) = S (count_char c s).
Proof.
  unfold split. induction s as [| d s IH]; [reflexivity |].
  rewrite split_go_cons, prefix_str1. cbn [count_char].
  destruct (Ascii.eqb c d).
  - cbn [String.length str1 Nat.pred length]. rewrite IH. reflexivity.
  - rewrite length_cons_head by apply split_go_nonempty. rewrite IH. reflexivity.
Qed.

Lemma split_char_pieces (c : ascii) (s : string) :
  Forall (fun seg => count_char c seg = 0%nat) (split (str1 c) s).
Proof.
  unfold split. induction s as [| d s IH]; [repeat constructor |].
  rewrite split_go_cons, prefix_str1.
  destruct (Ascii.eqb c d) eqn:Hcd.
  - constructor; [reflexivity | exact IH].
  - destruct (split_go (str1 c) 0 s) as [| x xs]; simpl.
    + repeat constructor. simpl. now rewrite Hcd.
    + inversion IH as [| ? ? Hx Hxs]; subst. constructor; [| exact Hxs].
      simpl. now rewrite Hcd.
Qed.

(** No piece has more occurrences of a character than the text. *)
Lemma split_go_pieces_le (c : ascii) (sep : string) (k : nat) (s : string) :
  Forall (fun seg => (count_char c seg <= count_char c s)%nat) (split_go sep k s).
Proof.
  revert k. induction s as [| d s IH]; intros k.
  - simpl. repeat constructor.
  - rewrite split_go_cons. cbn [count_char].
    assert (forall k', Forall (fun seg => (count_char c seg
              <= (if Ascii.eqb c d then 1 else 0) + count_char c s)%nat)
              (split_go sep k' s)) as IH'.
    { intros k'. eapply Forall_impl; [apply IH |]. simpl. intros; lia. }
    destruct k as [| k]; [| apply IH'].
    destruct (String.prefix sep (String d s)).
    + constructor; [simpl; lia | apply IH'].
    + specialize (IH 0%nat). destruct (split_go sep 0 s) as [| x xs]; simpl.
      * repeat constructor. simpl. lia.
      * inversion IH as [| ? ? Hx Hxs]; subst. constructor.
        -- simpl. lia.
        -- eapply Forall_impl; [exact Hxs |]. simpl. intros; lia.
Qed.

Lemma last_Forall {A} (P : A -> Prop) (l : list A) (d : A) :
  Forall P l -> l <> [] -> P (List.last l d).
Proof.
  induction 1 as [| x l Hx Hl IH]; [congruence |]. intros _.
  destruct l as [| y l]; [exact Hx |]. apply IH. discriminate.
Qed.

Lemma split_nonnil sep s : split sep s <> [].
Proof.
  unfold split. pose proof (split_go_nonempty sep 0 s).
  destruct (split_go sep 0 s); [simpl in *; lia | discriminate].
Qed.

Lemma count_char_lstrip c s : (count_char c (lstrip s) <= count_char c s)%nat.
Proof.
  induction s as [| d s IH]; simpl; [lia |].
  destruct (is_ws d); simpl; lia.
Qed.

Lemma count_char_rstrip c s : (count_char c (rstrip s) <= count_char c s)%nat.
Proof.
  induction s as [| d s IH]; simpl; [lia |].
  destruct (rstrip s) as [| e r] eqn:Hr.
  - destruct (is_ws d); simpl; lia.
  - simpl in *. lia.
Qed.

Lemma count_char_strip c s : (count_char c (strip s) <= count_char c s)%nat.
Proof.
  unfold strip. pose proof (count_char_rstrip c (lstrip s)).
  pose proof (count_char_lstrip c s). lia.
Qed.

Lemma append_empty_l (s : string) : "" +:+ s = s.
Proof. reflexivity. Qed.

Lemma count_char_remove c old k s :
  (count_char c (replace_go old "" k s) <= count_char c s)%nat.
Proof.
  revert k. induction s as [| d s IH]; intros k; [simpl; lia |].
  cbn [replace_go count_char]. destruct k as [| k].
  - destruct (String.prefix old (String d s)).
    + rewrite append_empty_l. specialize (IH (Nat.pred (String.length old))). lia.
    + cbn [count_char]. specialize (IH 0%nat). lia.
  - specialize (IH k). lia.
Qed.

(** X1: the line [extract_last_line] returns is a single line: it holds
    no carriage return and no newline, whatever the output. *)
Theorem extract_last_line_single_line (stdout_result : string) :
  count_char CR (extract_last_line stdout_result) = 0%nat /\
  count_char LF (extract_last_line stdout_result) = 0%nat.
Proof.
  unfold extract_last_line.
  set (a := List.last (split (str1 CR) stdout_result) "").
  set (b := List.last (split (str1 LF) (strip a)) "").
  assert (count_char CR a = 0%nat) as Ha.
  { subst a. apply (last_Forall (fun seg => count_char CR seg = 0%nat)).
    - apply split_char_pieces.
    - apply split_nonnil. }
  assert (count_char CR (strip a) = 0%nat) as Hsa.
  { pose proof (count_char_strip CR a). lia. }
  assert (count_char CR b = 0%nat) as Hb1.
  { subst b.
    pose proof (last_Forall (fun seg => (count_char CR seg <= count_char CR (strip a))%nat)
                  (split (str1 LF) (strip a)) ""
                  (split_go_pieces_le CR (str1 LF) 0 (strip a))
                  (split_nonnil _ _)) as H.
    simpl in H. lia. }
  assert (count_char LF b = 0%nat) as Hb2.
  { subst b. apply (last_Forall (fun seg => count_char LF seg = 0%nat)).
    - apply split_char_pieces.
    - apply split_nonnil. }
  unfold replace.
  pose proof (count_char_remove CR (String ESC "[A") 0 b).
  pose proof (count_char_remove LF (String ESC "[A") 0 b).
  lia.
Qed.

(** ** GPU rows *)

Definition has_comma (line : string) : bool := negb (count_char ","%char line =? 0)%nat.

Lemma parse_gpu_line_with_comma line res :
  has_comma line = true -> parse_gpu_line line = Ret res -> exists r, res = Some r.
Proof.
  unfold has_comma, parse_gpu_line. intros Hc.
  change "," with (str1 ","%char).
  pose proof (split_char_length ","%char line) as Hlen.
  apply negb_true_iff, Nat.eqb_neq in Hc.
  destruct (split (str1 ","%char) line) as [| v0 [| v1 vs]] eqn:Hs;
    simpl in Hlen; try lia.
  cbn [length Nat.eqb]. unfold index. cbn [lookup list_lookup].
  unfold mbind, result_bind, rbind. simpl.
  destruct vs as [| v2 vs']; simpl; [discriminate |].
  destruct (split " " v2 !! 1%nat); [| discriminate].
  destruct (py_float s); [| discriminate].
  intros [= <-]. eauto.
Qed.

(** X2: a row with two fields only, one comma, makes the parse raise
    IndexError on [values[2]]; it is not skipped like a row without
    comma. *)
Theorem parse_gpu_line_two_fields (line : string) :
  count_char ","%char line = 1%nat -> parse_gpu_line line = Raise IndexError.
Proof.
  intros Hc. unfold parse_gpu_line. change "," with (str1 ","%char).
  pose proof (split_char_length ","%char line) as Hlen. rewrite Hc in Hlen.
  destruct (split (str1 ","%char) line) as [| v0 [| v1 [| v2 vs]]];
    simpl in Hlen; try lia.
  reflexivity.
Qed.

Lemma parse_gpu_line_two_fields_witness :
  parse_gpu_line "12 %, 34 %" = Raise IndexError.
Proof. apply parse_gpu_line_two_fields. reflexivity. Defined.

Lemma parse_gpu_lines_length (lines : list string) (g : list GpuRec) :
  parse_gpu_lines lines = Ret g ->
  length g = length (List.filter has_comma lines).
Proof.
  revert g. induction lines as [| line lines IH]; intros g.
  - intros [= <-]. reflexivity.
  - cbn [parse_gpu_lines List.filter].
    destruct (parse_gpu_line line) as [res | e] eqn:Hl; [| discriminate].
    destruct (parse_gpu_lines lines) as [g' | e] eqn:Hr;
      unfold mbind, result_bind, rbind; [| discriminate].
    intros [= <-]. specialize (IH g' eq_refl).
    destruct (has_comma line) eqn:Hc.
    + destruct (parse_gpu_line_with_comma _ _ Hc Hl) as [r ->]. simpl. now rewrite IH.
    + unfold has_comma in Hc. apply negb_false_iff, Nat.eqb_eq in Hc.
      rewrite (parse_gpu_line_no_comma _ Hc) in Hl. injection Hl as <-. exact IH.
Qed.

(** X3: when the output of the GPU query is parsed without error, the
    list stored in [comm["gpu"]] has one sample per row with a comma
    after the header line; rows without comma (the empty last line) are
    skipped. *)
Theorem parse_gpu_output_count (out : string) (g : list GpuRec) :
  parse_gpu_output out = Ret g ->
  length g = length (List.filter has_comma (List.tl (split (str1 LF) out))).
Proof. apply parse_gpu_lines_length. Qed.

Lemma parse_gpu_output_count_witness :
  length [ {| util := "12%"; used_mem := "34%"; total_mem := "11" |};
           {| util := "0%"; used_mem := "1%"; total_mem := "16" |} ]
  = length (List.filter has_comma
      (List.tl (split (str1 LF)
         (gpu_header +:+ str1 LF +:+ spec_row +:+ str1 LF
          +:+ "0 %, 1 %, 16160 MiB" +:+ str1 LF)))).
Proof. apply parse_gpu_output_count. reflexivity. Defined.

(** ** Group ids and file names *)

Lemma digit_char_facts (d : Z) :
  0 <= d < 10 ->
  digit_val (digit_char d) = Some d /\
  is_ws (digit_char d) = false /\
  digit_char d <> "+"%char /\ digit_char d <> "-"%char /\
  digit_char d <> "_"%char /\ digit_char d <> "."%char.
Proof.
  intros H.
  assert (d = 0 \/ d = 1 \/ d = 2 \/ d = 3 \/ d = 4 \/ d = 5 \/ d = 6 \/ d = 7 \/
          d = 8 \/ d = 9) as Hd by lia.
  repeat (destruct Hd as [-> | Hd]; [repeat split; (reflexivity || discriminate) |]).
  subst d. repeat split; (reflexivity || discriminate).
Qed.

(** The characters of a number's text: digits and a leading sign. *)
Definition plain_char (c : ascii) : Prop :=
  is_ws c = false /\ c <> "_"%char /\ c <> "."%char.

Fixpoint plain (s : string) : Prop :=
  match s with
  | EmptyString => True
  | String c s' => plain_char c /\ plain s'
  end.

Lemma nat_digits_spec (fuel : nat) (n : Z) (rest : string) :
  0 <= n < 10 ^ Z.of_nat (S fuel) ->
  exists k d s,
    0 <= d < 10 /\
    nat_digits (S fuel) n rest = String (digit_char d) s /\
    (plain rest -> plain (String (digit_char d) s)) /\
    0 <= k /\
    forall a b, int_digits a b (nat_digits (S fuel) n rest)
                = int_digits (a * 10 ^ k + n) true rest.
Proof.
  revert n rest. induction fuel as [| f IH]; intros n rest Hn;
    cbn [nat_digits];
    assert (0 <= n mod 10 < 10) as Hm by (apply Z.mod_pos_bound; lia);
    destruct (digit_char_facts _ Hm) as (Hv & Hw & _ & _ & Hu & Hp);
    destruct (n <? 10) eqn:Hlt.
  - apply Z.ltb_lt in Hlt. rewrite Z.mod_small in * by lia.
    exists 1, n, rest. repeat split; try lia; auto.
    intros a b. cbn [int_digits]. rewrite Hv. f_equal. lia.
  - apply Z.ltb_ge in Hlt. simpl in Hn. lia.
  - apply Z.ltb_lt in Hlt. rewrite Z.mod_small in * by lia.
    exists 1, n, rest. repeat split; try lia; auto.
    intros a b. cbn [int_digits]. rewrite Hv. f_equal. lia.
  - apply Z.ltb_ge in Hlt.
    destruct (IH (n / 10) (String (digit_char (n mod 10)) rest))
      as (k & d & s & Hd & He & Hpl & Hk & Hi).
    { split; [apply Z.div_pos; lia |].
      apply Z.div_lt_upper_bound; [lia |].
      rewrite (Nat2Z.inj_succ (S f)), Z.pow_succ_r in Hn by lia. lia. }
    exists (k + 1), d, s. split; [exact Hd |]. split; [exact He |].
    split; [| split; [lia |]].
    + intros Hr. apply Hpl. simpl. repeat split; auto.
    + intros a b. change (nat_digits (S (S f)) n rest) with
        (let acc' := String (digit_char (n mod 10)) rest in
         if n <? 10 then acc' else nat_digits (S f) (n / 10) acc').
      cbv zeta. replace (n <? 10) with false by (symmetry; now apply Z.ltb_ge).
      rewrite Hi. cbn [int_digits]. rewrite Hv. f_equal.
      rewrite Z.pow_add_r by lia.
      pose proof (Z.div_mod n 10 ltac:(lia)). lia.
Qed.

Lemma fuel_enough (n : Z) : 0 <= n -> n < 10 ^ Z.of_nat (S (Z.to_nat (Z.log2 n))).
Proof.
  intros Hn. rewrite Nat2Z.inj_succ, Z2Nat.id by apply Z.log2_nonneg.
  destruct (Z.eq_dec n 0) as [-> | Hne]; [reflexivity |].
  pose proof (Z.log2_spec n ltac:(lia)) as [_ Hlt].
  assert (2 ^ Z.succ (Z.log2 n) <= 10 ^ Z.succ (Z.log2 n)).
  { apply Z.pow_le_mono_l. lia. }
  lia.
Qed.

Lemma lstrip_plain c s : is_ws c = false -> lstrip (String c s) = String c s.
Proof. intros H. simpl. now rewrite H. Qed.

Lemma rstrip_plain s : plain s -> rstrip s = s.
Proof.
  induction s as [| c s IH]; [reflexivity |].
  intros [(Hw & _) Hs]. cbn [rstrip]. rewrite (IH Hs).
  destruct s; [now rewrite Hw | reflexivity].
Qed.

Lemma strip_plain c s : plain (String c s) -> strip (String c s) = String c s.
Proof.
  intros H. unfold strip. destruct H as [(Hw & Hr) Hs].
  rewrite lstrip_plain by exact Hw. apply rstrip_plain.
  exact (conj (conj Hw Hr) Hs).
Qed.

Lemma py_str_int_plain (n : Z) : plain (py_str_int n) /\ py_str_int n <> EmptyString.
Proof.
  unfold py_str_int. destruct (n <? 0) eqn:Hn.
  - apply Z.ltb_lt in Hn.
    assert (0 <= - n) as Hn' by lia.
    destruct (nat_digits_spec _ (- n) EmptyString (conj Hn' (fuel_enough (- n) Hn')))
      as (k & d & s & Hd & -> & Hpl & _).
    split; [| discriminate]. simpl. split.
    + repeat split; (reflexivity || discriminate).
    + apply Hpl. exact I.
  - apply Z.ltb_ge in Hn.
    destruct (nat_digits_spec _ n EmptyString (conj Hn (fuel_enough n Hn)))
      as (k & d & s & Hd & -> & Hpl & _).
    split; [| discriminate]. apply Hpl. exact I.
Qed.

Lemma py_int_unsigned (d : Z) (s : string) :
  0 <= d < 10 -> plain (String (digit_char d) s) ->
  py_int (String (digit_char d) s) = int_digits 0 false (String (digit_char d) s).
Proof.
  intros Hd Hpl. unfold py_int. rewrite strip_plain by exact Hpl.
  assert (d = 0 \/ d = 1 \/ d = 2 \/ d = 3 \/ d = 4 \/ d = 5 \/ d = 6 \/ d = 7 \/
          d = 8 \/ d = 9) as Hc by lia.
  repeat (destruct Hc as [-> | Hc]; [reflexivity |]). subst d. reflexivity.
Qed.

(** Reading back the text of an integer gives the integer. *)
Lemma py_int_py_str_int (n : Z) : py_int (py_str_int n) = Some n.
Proof.
  pose proof (py_str_int_plain n) as [Hpl _].
  unfold py_str_int in *. destruct (n <? 0) eqn:Hn.
  - apply Z.ltb_lt in Hn. assert (0 <= - n) as Hn' by lia.
    unfold py_int. rewrite strip_plain by exact Hpl.
    destruct (nat_digits_spec _ (- n) EmptyString (conj Hn' (fuel_enough (- n) Hn')))
      as (k & d & s & Hd & He & _ & Hk & Hi).
    rewrite Hi. simpl. f_equal. lia.
  - apply Z.ltb_ge in Hn.
    destruct (nat_digits_spec _ n EmptyString (conj Hn (fuel_enough n Hn)))
      as (k & d & s & Hd & He & _ & Hk & Hi).
    rewrite He in Hpl. rewrite He, (py_int_unsigned d s Hd Hpl), <- He, Hi.
    simpl. f_equal; lia.
Qed.

Lemma split_char_plain_suffix (c : ascii) (s t : string) :
  (forall d, plain_char d -> d <> c) ->
  plain s -> count_char c t = 0%nat ->
  split (str1 c) (s +:+ t) = [s +:+ t].
Proof.
  intros Hc Hs Ht. apply split_char_absent.
  induction s as [| d s IH]; [exact Ht |].
  destruct Hs as [Hd Hs]. change (String d s +:+ t) with (String d (s +:+ t)).
  cbn [count_char]. rewrite (IH Hs).
  destruct (Ascii.eqb c d) eqn:E; [| reflexivity].
  apply Ascii.eqb_eq in E. subst d. exfalso. now apply (Hc c Hd).
Qed.

Lemma prefix_head_ne (a b : ascii) (p s : string) :
  a <> b -> String.prefix (String a p) (String b s) = false.
Proof.
  intros H. cbn -[ascii_dec]. destruct (ascii_dec a b); [contradiction | reflexivity].
Qed.

Lemma split_dot_log (s : string) :
  plain s -> split ".log" (s +:+ ".log") = [s; EmptyString].
Proof.
  unfold split. induction s as [| d s IH]; [reflexivity |].
  intros [(Hw & Hu & Hp) Hs].
  change (String d s +:+ ".log") with (String d (s +:+ ".log")).
  rewrite split_go_cons, prefix_head_ne by congruence.
  rewrite (IH Hs). reflexivity.
Qed.

(** The first piece of a text cut at a character ends at the first
    occurrence of the character. *)
Lemma split_char_first (c : ascii) (s1 t : string) :
  count_char c s1 = 0%nat ->
  split (str1 c) (s1 +:+ String c t) = s1 :: split (str1 c) t.
Proof.
  unfold split. induction s1 as [| d s1 IH]; intros Hc.
  - rewrite append_empty_l, split_go_cons, prefix_str1, Ascii.eqb_refl. reflexivity.
  - change (String d s1 +:+ String c t) with (String d (s1 +:+ String c t)).
    cbn [count_char] in Hc.
    destruct (Ascii.eqb c d) eqn:E; [discriminate |].
    rewrite split_go_cons, prefix_str1, E, IH by exact Hc. reflexivity.
Qed.

Definition log_file_name (group_id : Z) : string :=
  "experiment_" +:+ py_str_int group_id +:+ ".log".

Lemma parse_log_file_name (n : Z) : parse_file_ids [log_file_name n] = Ret [n].
Proof.
  destruct (py_str_int_plain n) as [Hpl Hne].
  assert (split "_" (log_file_name n) = ["experiment"; py_str_int n +:+ ".log"]) as Hs.
  { change (log_file_name n)
      with ("experiment" +:+ String "_" (py_str_int n +:+ ".log")).
    change "_" with (str1 "_"%char).
    rewrite split_char_first by reflexivity. f_equal.
    apply split_char_plain_suffix; [| exact Hpl | reflexivity].
    intros d (_ & Hd & _). exact Hd. }
  unfold parse_file_ids.
  assert ((0 <? String.length (log_file_name n))%nat = true) as -> by reflexivity.
  rewrite Hs.
  change (index ["experiment"; py_str_int n +:+ ".log"] 1)
    with (@Ret string (py_str_int n +:+ ".log")).
  unfold mbind, result_bind, rbind.
  rewrite (split_dot_log _ Hpl). unfold index. cbn [lookup list_lookup].
  rewrite py_int_py_str_int. reflexivity.
Qed.

(** X4: a log listed under the name [experiment_<n>.log], [n] written
    as Python prints it, is parsed to the group id [n], and the commands
    of the poll cycle for this group name the same file again: the [tail]
    reads [/home/ubuntu/experiment_<n>.log] and the archive is
    [remote/logs/<machine>/experiment_<n>.log]. *)
Theorem log_name_round_trip (n : Z) (machine : string) :
  parse_file_ids [log_file_name n] = Ret [n] /\
  remote_log n = "/home/ubuntu/" +:+ log_file_name n /\
  local_log machine n = "remote/logs/" +:+ machine +:+ "/" +:+ log_file_name n.
Proof.
  split; [apply parse_log_file_name |]. split; [reflexivity |].
  unfold local_log, log_file_name. reflexivity.
Qed.

(** A counterpart: a name with leading zeros is parsed to the same id,
    so the commands name another file than the one listed. *)
Example log_name_leading_zeros :
  parse_file_ids ["experiment_007.log"] = Ret [7] /\
  remote_log 7 = "/home/ubuntu/experiment_7.log".
Proof. split; reflexivity. Qed.

(** ** Experiment ids of the groups *)

Lemma _extract_exp_id_without_announcement line :
  contains id_announcement line = false -> _extract_exp_id line = Ret None.
Proof. intros H. unfold _extract_exp_id. now rewrite H. Qed.

(** X5: a line that does not contain the announcement leaves the map of
    experiment ids as it is, assigns nothing and emits nothing;
    [monitor_exp_id] answers the id recorded for the group, or ["?"] when
    none is recorded. *)
Theorem monitor_exp_id_keeps_recorded (line : string) (group_id : Z) (w : World) (m : Monitor) :
  contains id_announcement line = false ->
  monitor_exp_id line group_id w m =
    (Ret (match exp_ids m !! group_id with
          | Some v => EInt v
          | None => EStr "?"
          end), m, []).
Proof.
  intros H. apply monitor_exp_id_no_announcement.
  now apply _extract_exp_id_without_announcement.
Qed.

Lemma monitor_exp_id_keeps_recorded_witness :
  monitor_exp_id "epoch 3 loss 0.1" 0 no_gpu_world sample_monitor
  = (Ret (match exp_ids sample_monitor !! 0 with
          | Some v => EInt v
          | None => EStr "?"
          end), sample_monitor, []).
Proof. apply monitor_exp_id_keeps_recorded. reflexivity. Defined.

(** X6: a line from which an id [v] is extracted records [v] for this
    group and for no other, overwriting an earlier id of the group;
    [monitor_exp_id] answers [v], and [comm] and the flags are left
    alone. *)
Theorem monitor_exp_id_records (line : string) (group_id v : Z) (w : World) (m : Monitor) :
  _extract_exp_id line = Ret (Some v) ->
  exists m',
    monitor_exp_id line group_id w m = (Ret (EInt v), m', []) /\
    exp_ids m' !! group_id = Some v /\
    (forall g, g <> group_id -> exp_ids m' !! g = exp_ids m !! g) /\
    comm m' = comm m /\
    is_exp_ids_detected m' = is_exp_ids_detected m /\
    is_final_logs_downloaded m' = is_final_logs_downloaded m.
Proof.
  intros Hl. unfold monitor_exp_id, mbind, M_bind, lift, self, set_exp_id. rewrite Hl.
  simpl. rewrite in_is_not_None_key_in.
  assert (key_in group_id (<[group_id:=v]> (exp_ids m)) = true) as ->.
  { apply key_in_true. rewrite lookup_insert_eq. eauto. }
  rewrite lookup_insert_eq. simpl. eexists. split; [reflexivity |].
  simpl. split; [apply lookup_insert_eq |].
  split; [| auto]. intros g Hg. now apply lookup_insert_ne.
Qed.

Definition announcement_7160 : string :=
  "INFO - " +:+ id_announcement +:+ str1 dquote +:+ "7160" +:+ str1 dquote.

Lemma monitor_exp_id_records_witness :
  exists m',
    monitor_exp_id announcement_7160 0 no_gpu_world sample_monitor = (Ret (EInt 7160), m', []) /\
    exp_ids m' !! 0 = Some 7160 /\
    (forall g, g <> 0 -> exp_ids m' !! g = exp_ids sample_monitor !! g) /\
    comm m' = comm sample_monitor /\
    is_exp_ids_detected m' = is_exp_ids_detected sample_monitor /\
    is_final_logs_downloaded m' = is_final_logs_downloaded sample_monitor.
Proof. apply monitor_exp_id_records. reflexivity. Defined.





(** A body that swallows every exception makes a loop that returns. *)
Lemma for_swallowing_returns {A} (l : list A) (c : A -> M unit) w m :
  exists m' e, for_ l (fun x => try_except (c x) (mret tt)) w m = (Ret tt, m', e).
Proof.
  revert m. induction l as [| x l IH]; intros m.
  - exists m, []. reflexivity.
  - cbn [for_]. unfold mbind, M_bind.
    destruct (try_except (c x) (mret tt) w m) as [[r m1] e1] eqn:E.
    assert (r = Ret tt) as ->.
    { unfold try_except in E. destruct (c x w m) as [[[[] | ex] mx] ex1].
      - now injection E as <- _ _.
      - now injection E as <- _ _. }
    destruct (IH m1) as (m' & e & ->). eauto.
Qed.

(** X8: the initial detection never fails because of the logs it reads:
    an unreadable local file, or a line from which the extraction raises,
    only ends the scan of that group. When its call of [download_logs]
    returns, [_initial_detect_ids] returns. *)
Theorem initial_detect_ids_returns (group_ids : list Z) (w : World) (m m1 : Monitor)
    (e1 : list event) :
  download_logs group_ids w m = (Ret tt, m1, e1) ->
  exists m' e, _initial_detect_ids group_ids w m = (Ret tt, m', e1 ++ e).
Proof.
  intros Hd. unfold _initial_detect_ids.
  unfold mbind at 1, M_bind at 1. rewrite Hd.
  unfold mbind at 1, M_bind at 1, self at 1.
  destruct (for_swallowing_returns group_ids
              (fun group_id => lines ← do_readlines (local_log (name m1) group_id);
                               scan_lines group_id (List.rev lines)) w m1)
    as (m' & e & He).
  rewrite He. exists m', e. reflexivity.
Qed.

Lemma initial_detect_ids_returns_witness :
  exists m' e,
    _initial_detect_ids [0] no_gpu_world sample_monitor
    = (Ret tt, m', (download_logs [0] no_gpu_world sample_monitor).2 ++ e).
Proof.
  apply (initial_detect_ids_returns [0] no_gpu_world sample_monitor sample_monitor).
  reflexivity.
Defined.

(** ** Transfers of [download_logs] *)

















(** ** The stop request *)

(** Events that reach outside the process or touch the log directory. *)
Definition is_action (e : event) : bool :=
  match e with
  | EvPrint _ | EvComm _ | EvSleep _ => false
  | _ => true
  end.

(** Between a monitor that has seen the stop request and what it was:
    nothing was done, nothing was published. *)
Definition stopped (m m' : Monitor) (evs : list event) : Prop :=
  should_stop (comm m') = true /\
  List.filter is_action evs = [] /\
  List.filter is_sleep evs = [] /\
  result_ (comm m') = result_ (comm m) /\
  load (comm m') = load (comm m) /\
  gpu (comm m') = gpu (comm m) /\
  exp_ids m' = exp_ids m.

Lemma observe_stop_cases w m :
  observe_stop w m = (Ret tt, m, []) \/
  (stop_request w = true /\
   observe_stop w m = (Ret tt, with_comm (set_should_stop true (comm m)) m,
                       [EvComm (set_should_stop true (comm m))])).
Proof.
  unfold observe_stop, mbind, M_bind, ask. destruct (stop_request w); auto.
Qed.

Lemma run_step_stop_connecting SM w m :
  should_stop (comm m) = true \/ stop_request w = true ->
  exists m' e,
    run_step SM w Connecting m = (Terminated StopRequested, m', e) /\ stopped m m' e.
Proof.
  intros Hs. unfold run_step, iteration.
  unfold mbind at 1, M_bind at 1.
  destruct (observe_stop_cases w m) as [E | [Hw E]]; rewrite E.
  - destruct Hs as [Hs | Hs].
    + unfold connecting_iteration, mbind, M_bind, self. rewrite Hs.
      eexists _, _. split; [reflexivity |]. unfold stopped. simpl. auto 10.
    + unfold observe_stop, mbind, M_bind, ask in E. rewrite Hs in E. discriminate E.
  - unfold connecting_iteration, mbind, M_bind, self. simpl.
    eexists _, _. split; [reflexivity |]. unfold stopped. simpl. auto 10.
Qed.

Lemma run_step_stop_polling SM w m :
  should_stop (comm m) = true \/ stop_request w = true ->
  exists m' e,
    run_step SM w Polling m = (Connecting, m', e) /\ stopped m m' e.
Proof.
  intros Hs. unfold run_step, iteration.
  unfold mbind at 1, M_bind at 1.
  destruct (observe_stop_cases w m) as [E | [Hw E]]; rewrite E.
  - destruct Hs as [Hs | Hs].
    + unfold polling_iteration, mbind, M_bind, self. rewrite Hs.
      eexists _, _. split; [reflexivity |]. unfold stopped. simpl. auto 10.
    + unfold observe_stop, mbind, M_bind, ask in E. rewrite Hs in E. discriminate E.
  - unfold polling_iteration, mbind, M_bind, self. simpl.
    eexists _, _. split; [reflexivity |]. unfold stopped. simpl. auto 10.
Qed.

Lemma stopped_trans m1 m2 m3 e1 e2 :
  stopped m1 m2 e1 -> stopped m2 m3 e2 -> stopped m1 m3 (e1 ++ e2).
Proof.
  intros (_ & A1 & S1 & R1 & L1 & G1 & X1) (H2 & A2 & S2 & R2 & L2 & G2 & X2).
  unfold stopped. rewrite !List.filter_app, A1, A2, S1, S2.
  repeat split; auto; congruence.
Qed.

(** X11: the stop request is honoured at the next loop test. With
    [should_stop] set, or set by the handler before the iteration, the
    worker leaves the polling loop and then the connecting loop: [run]
    ends by the stop after two iterations at most, without a connection
    attempt, a remote command, a transfer, a sleep or a new
    publication. *)
Theorem stop_is_honoured SM (w1 w2 : World) (ws : list World) (ph : phase) (m : Monitor) :
  ph = Connecting \/ ph = Polling ->
  should_stop (comm m) = true \/ stop_request w1 = true ->
  exists m' evs,
    run SM (w1 :: w2 :: ws) ph m = (Terminated StopRequested, m', evs) /\
    List.filter is_action evs = [] /\
    List.filter is_sleep evs = [] /\
    result_ (comm m') = result_ (comm m) /\
    load (comm m') = load (comm m) /\
    gpu (comm m') = gpu (comm m) /\
    exp_ids m' = exp_ids m.
Proof.
  assert (forall c0, Connecting <> Terminated c0) as NC by (intros; discriminate).
  assert (forall c0, Polling <> Terminated c0) as NP by (intros; discriminate).
  intros [-> | ->] Hs.
  - destruct (run_step_stop_connecting SM w1 m Hs) as (m' & e & E & St).
    exists m', (e ++ []). split.
    + rewrite (run_cons _ _ _ _ _ _ _ _ NC E), run_terminated. reflexivity.
    + rewrite app_nil_r. destruct St as (_ & St). exact St.
  - destruct (run_step_stop_polling SM w1 m Hs) as (m1 & e1 & E1 & St1).
    assert (should_stop (comm m1) = true) as Hs1 by apply St1.
    destruct (run_step_stop_connecting SM w2 m1 (or_introl Hs1)) as (m2 & e2 & E2 & St2).
    exists m2, (e1 ++ e2 ++ []). split.
    + rewrite (run_cons _ _ _ _ _ _ _ _ NP E1).
      rewrite (run_cons _ _ _ _ _ _ _ _ NC E2), run_terminated. reflexivity.
    + rewrite app_nil_r. destruct (stopped_trans _ _ _ _ _ St1 St2) as (_ & St). exact St.
Qed.

Definition stop_world : World :=
  {| stop_request := true; instances := [sample_instance "m1"]; key_loads := true;
     connects := true;
     session := sample_session (Some "0.52 0.58 0.59 2/871 12345")
                  (Some (gpu_header +:+ str1 LF +:+ spec_row +:+ str1 LF))
                  (Some "epoch 1") GetOk;
     clock := "09:00:09.000" |}.

Lemma stop_is_honoured_witness :
  exists m' evs,
    run "SHUTDOWN" (stop_world :: no_gpu_world :: []) Polling sample_monitor
    = (Terminated StopRequested, m', evs) /\
    List.filter is_action evs = [] /\
    List.filter is_sleep evs = [] /\
    result_ (comm m') = result_ (comm sample_monitor) /\
    load (comm m') = load (comm sample_monitor) /\
    gpu (comm m') = gpu (comm sample_monitor) /\
    exp_ids m' = exp_ids sample_monitor.
Proof.
  apply stop_is_honoured.
  - right. reflexivity.
  - right. reflexivity.
Defined.

(** ** What an iteration of the polling loop publishes *)




(** ** How often the logs are fetched *)

(** Steps that fetch nothing and leave [is_exp_ids_detected] alone. *)
Definition fetches_nothing (m m' : Monitor) (evs : list event) : Prop :=
  is_exp_ids_detected m' = is_exp_ids_detected m /\
  download_logs_calls evs = 0%nat /\
  archive_count evs = 0%nat.

Lemma download_logs_calls_app e1 e2 :
  download_logs_calls (e1 ++ e2) = (download_logs_calls e1 + download_logs_calls e2)%nat.
Proof. unfold download_logs_calls. rewrite List.filter_app, length_app. reflexivity. Qed.

#[global] Instance fetches_nothing_sequential : Sequential fetches_nothing.
Proof.
  split.
  - intros m. repeat split.
  - intros m1 m2 m3 e1 e2 (D1 & C1 & A1) (D2 & C2 & A2). unfold fetches_nothing.
    rewrite download_logs_calls_app, archive_count_app, C1, C2, A1, A2.
    repeat split. congruence.
Qed.

Lemma fetches_nothing_emit e :
  is_mkdir e = false -> is_archive_start e = false -> obeys fetches_nothing (emit e).
Proof.
  intros H1 H2 w m r m' evs [= <- <- <-].
  unfold fetches_nothing, download_logs_calls, archive_count. simpl.
  rewrite H1, H2. repeat split.
Qed.

Lemma fetches_nothing_set_comm f : obeys fetches_nothing (set_comm f).
Proof. intros w m r m' evs [= <- <- <-]. repeat split. Qed.
Lemma fetches_nothing_set_exp_id g v : obeys fetches_nothing (set_exp_id g v).
Proof. intros w m r m' evs [= <- <- <-]. repeat split. Qed.
Lemma fetches_nothing_do_exec cmd : obeys fetches_nothing (do_exec cmd).
Proof. intros w m r m' evs [= <- <- <-]. repeat split. Qed.
Lemma fetches_nothing_do_sleep : obeys fetches_nothing do_sleep.
Proof. intros w m r m' evs [= <- <- <-]. repeat split. Qed.
Lemma fetches_nothing_do_connect : obeys fetches_nothing do_connect.
Proof. intros w m r m' evs [= <- <- <-]. repeat split. Qed.

Create HintDb fetch_db.
#[global] Hint Resolve fetches_nothing_emit fetches_nothing_set_comm
  fetches_nothing_set_exp_id fetches_nothing_do_exec fetches_nothing_do_sleep
  fetches_nothing_do_connect : fetch_db.
#[global] Hint Extern 1 (_ = false) => reflexivity : fetch_db.

Lemma fetches_nothing__write r : obeys fetches_nothing (_write r).
Proof. unfold _write. obeys_auto fetch_db. Qed.

Lemma fetches_nothing_scan_lines g ls : obeys fetches_nothing (scan_lines g ls).
Proof. induction ls as [| l ls IH]; simpl; obeys_auto fetch_db. Qed.

Lemma fetches_nothing_monitor_exp_id line g : obeys fetches_nothing (monitor_exp_id line g).
Proof. unfold monitor_exp_id. obeys_auto fetch_db. Qed.

Lemma fetches_nothing_observe_stop : obeys fetches_nothing observe_stop.
Proof. unfold observe_stop. obeys_auto fetch_db. Qed.

#[global] Hint Resolve fetches_nothing__write fetches_nothing_scan_lines
  fetches_nothing_monitor_exp_id fetches_nothing_observe_stop : fetch_db.

(** Every entry of [download_logs] is the initial detection, made while
    [is_exp_ids_detected] goes from false to true, or an archival. *)
Definition fetches (m m' : Monitor) (evs : list event) : Prop :=
  (is_exp_ids_detected m = true ->
   is_exp_ids_detected m' = true /\ download_logs_calls evs = archive_count evs) /\
  (is_exp_ids_detected m = false ->
   (is_exp_ids_detected m' = false /\ download_logs_calls evs = archive_count evs) \/
   (is_exp_ids_detected m' = true /\
    download_logs_calls evs = S (archive_count evs))).

#[global] Instance fetches_sequential : Sequential fetches.
Proof.
  split.
  - intros m. split; [auto | intros; left; auto].
  - intros m1 m2 m3 e1 e2 (T1 & F1) (T2 & F2). unfold fetches.
    rewrite download_logs_calls_app, archive_count_app. split.
    + intros D1. destruct (T1 D1) as (D2 & C1). destruct (T2 D2) as (D3 & C2).
      split; [exact D3 | lia].
    + intros D1. destruct (F1 D1) as [(D2 & C1) | (D2 & C1)].
      * destruct (F2 D2) as [(D3 & C2) | (D3 & C2)]; [left | right]; split; auto; lia.
      * destruct (T2 D2) as (D3 & C2). right. split; auto; lia.
Qed.

Lemma fetches_of_nothing {A} (c : M A) : obeys fetches_nothing c -> obeys fetches c.
Proof.
  intros Hc w m r m' evs H. destruct (Hc _ _ _ _ _ H) as (D & C & A0).
  unfold fetches. rewrite D, C, A0. split; [auto |]. intros Hd. left. auto.
Qed.

Lemma fetches_download_logs_before_shutdown SM gids line :
  obeys fetches (download_logs_before_shutdown SM gids line).
Proof.
  intros w m r m' evs H.
  assert (is_exp_ids_detected m' = is_exp_ids_detected m /\
          download_logs_calls evs = archive_count evs) as [D C].
  { destruct (is_final_logs_downloaded m) eqn:Hf.
    - rewrite (download_logs_before_shutdown_done _ _ _ _ _ Hf) in H.
      injection H as <- <- <-. split; reflexivity.
    - destruct (contains SM line) eqn:Hc.
      + destruct (download_logs_before_shutdown_first _ _ _ _ _ _ _ _ Hc Hf H)
          as (_ & Ha & Hd).
        split; [| congruence].
        unfold download_logs_before_shutdown in H.
        peel H a1 m1 e1 H1; [| discriminate H1]. injection H1 as <- <- <-.
        rewrite Hc, Hf in H. simpl in H.
        peel H a2 m2 e2 H2; [| discriminate H2]. injection H2 as <- <- <-.
        peel H a3 m3 e3 H3; [| discriminate H3]. injection H3 as <- <- <-.
        match type of H with
        | ?K _ _ = _ =>
            assert (obeys unchanged K) as HK
              by (apply obeys_bind;
                  [apply _ | apply download_logs_unchanged | intros; apply unchanged_print])
        end.
        apply HK in H. unfold unchanged in H. subst m'. reflexivity.
      + unfold download_logs_before_shutdown, mbind, M_bind, self in H.
        rewrite Hc in H. simpl in H. injection H as <- <- <-. split; reflexivity. }
  unfold fetches. rewrite D, C. split; [auto |]. intros Hd. left. auto.
Qed.

(** The guarded block of the first cycle: the flag is set, then the
    logs are fetched once. *)
Lemma fetches_initial_detection gids w m r m' evs :
  is_exp_ids_detected m = false ->
  (set_is_exp_ids_detected true;; _initial_detect_ids gids) w m = (r, m', evs) ->
  is_exp_ids_detected m' = true /\
  download_logs_calls evs = 1%nat /\ archive_count evs = 0%nat.
Proof.
  intros Hd H.
  peel H a1 m1 e1 H1; [| discriminate H1]. injection H1 as <- <- <-.
  unfold _initial_detect_ids in H.
  apply bind_inv in H as [(a2 & m2 & e2 & e3 & H2 & H & ->) | (e & H2 & ->)].
  - pose proof (download_logs_calls_once _ _ _ _ _ _ H2) as C2.
    pose proof (download_logs_no_archive_start _ _ _ _ _ _ H2) as A2.
    pose proof (download_logs_unchanged _ _ _ _ _ _ H2) as U2.
    unfold unchanged in U2. subst m2.
    match type of H with
    | ?K _ _ = _ => assert (obeys fetches_nothing K) as HK by obeys_auto fetch_db
    end.
    destruct (HK _ _ _ _ _ H) as (D3 & C3 & A3).
    rewrite app_nil_l, download_logs_calls_app, archive_count_app.
    rewrite D3, C2, C3, A3. unfold archive_count at 1.
    rewrite (filter_none _ _ A2). repeat split.
  - pose proof (download_logs_calls_once _ _ _ _ _ _ H2) as C2.
    pose proof (download_logs_no_archive_start _ _ _ _ _ _ H2) as A2.
    pose proof (download_logs_unchanged _ _ _ _ _ _ H2) as U2.
    unfold unchanged in U2. subst m'. simpl.
    unfold archive_count. rewrite (filter_none _ _ A2). repeat split. exact C2.
Qed.

Lemma fetches_detection_block gids w m r m' evs :
  (if negb (is_exp_ids_detected m)
   then set_is_exp_ids_detected true;; _initial_detect_ids gids
   else mret tt) w m = (r, m', evs) ->
  fetches m m' evs.
Proof.
  destruct (is_exp_ids_detected m) eqn:Hd; simpl; intros H.
  - injection H as <- <- <-. apply seq_skip.
  - destruct (fetches_initial_detection _ _ _ _ _ _ Hd H) as (D & C & A0).
    unfold fetches. rewrite Hd, D, C, A0. split; [discriminate |]. intros _. right. auto.
Qed.

Lemma fetches_poll_cycle SM : obeys fetches (poll_cycle SM).
Proof.
  unfold poll_cycle.
  apply obeys_bind; [apply _ | apply fetches_of_nothing; obeys_auto fetch_db | intros out1].
  apply obeys_bind; [apply _ | apply fetches_of_nothing; obeys_auto fetch_db | intros tok].
  apply obeys_bind; [apply _ | apply fetches_of_nothing; obeys_auto fetch_db | intros _].
  apply obeys_bind; [apply _ | apply fetches_of_nothing; obeys_auto fetch_db | intros out2].
  apply obeys_bind; [apply _ | apply fetches_of_nothing; obeys_auto fetch_db | intros g].
  apply obeys_bind; [apply _ | apply fetches_of_nothing; obeys_auto fetch_db | intros _].
  apply obeys_bind; [apply _ | apply fetches_of_nothing; obeys_auto fetch_db | intros out3].
  apply obeys_bind; [apply _ | apply fetches_of_nothing; obeys_auto fetch_db | intros ids].
  cbv zeta. intros w m r m' evs H.
  apply bind_inv in H as [(a & m0 & e0 & e1 & H0 & H & ->) | (e & [=] & _)].
  injection H0 as <- <- <-. rewrite app_nil_l.
  apply bind_inv in H as [(a1 & m1 & e1' & e2 & H1 & H & ->) | (e & H1 & ->)];
    [| exact (fetches_detection_block _ _ _ _ _ _ H1)].
  eapply seq_comp; [exact (fetches_detection_block _ _ _ _ _ _ H1) |].
  revert H.
  apply obeys_bind; [apply _ | | intros results].
  - apply obeys_for_append; [apply _ |]. intros gid.
    apply obeys_bind; [apply _ | apply fetches_of_nothing; obeys_auto fetch_db | intros out].
    cbv zeta.
    apply obeys_bind;
      [apply _ | apply fetches_of_nothing; apply fetches_nothing_monitor_exp_id | intros id].
    apply obeys_bind; [apply _ | | intros _; apply obeys_ret; apply _].
    destruct (gid =? 0);
      [apply fetches_download_logs_before_shutdown | apply obeys_ret; apply _].
  - apply fetches_of_nothing. obeys_auto fetch_db.
Qed.

Lemma fetches_iteration SM ph : obeys fetches (iteration SM ph).
Proof.
  destruct ph; simpl.
  - apply fetches_of_nothing. unfold run_prologue. obeys_auto fetch_db.
  - apply fetches_of_nothing. unfold connecting_iteration. obeys_auto fetch_db.
  - unfold polling_iteration.
    apply obeys_bind; [apply _ | apply obeys_self; apply _ | intros m].
    destruct (should_stop (comm m)); [apply obeys_ret; apply _ |].
    apply obeys_try_except; [apply _ | | apply fetches_of_nothing; obeys_auto fetch_db].
    apply obeys_bind; [apply _ | apply obeys_ask; apply _ | intros w].
    apply obeys_bind; [apply _ | apply obeys_lift; apply _ | intros [i |]].
    + apply obeys_bind; [apply _ | apply fetches_poll_cycle | intros _; apply obeys_ret; apply _].
    + apply fetches_of_nothing. obeys_auto fetch_db.
  - apply obeys_ret. apply _.
Qed.

Lemma fetches_run_step SM w ph m ph' m' evs :
  run_step SM w ph m = (ph', m', evs) -> fetches m m' evs.
Proof.
  unfold run_step.
  destruct ((observe_stop;; iteration SM ph) w m) as [[r m1] e1] eqn:H.
  assert (fetches m m1 e1) as Ho.
  { revert H. apply obeys_bind;
      [apply _ | apply fetches_of_nothing, fetches_nothing_observe_stop |].
    intros _. apply fetches_iteration. }
  destruct r; intros [= <- <- <-]; exact Ho.
Qed.

Lemma fetches_run SM ws ph m ph' m' evs :
  run SM ws ph m = (ph', m', evs) -> fetches m m' evs.
Proof.
  revert ph m ph' m' evs. induction ws as [| w ws IH]; intros ph m ph' m' evs H.
  - injection H as <- <- <-. apply seq_skip.
  - destruct ph as [| | | c].
    1-3: simpl in H;
      match type of H with
      | context [run_step ?s ?x ?p ?y] =>
          destruct (run_step s x p y) as [[ph1 m1] e1] eqn:Hst;
          destruct (run SM ws ph1 m1) as [[ph2 m2] e2] eqn:Hr
      end;
      injection H as <- <- <-;
      eapply seq_comp; [eapply fetches_run_step | eapply IH]; eauto.
    rewrite run_terminated in H. injection H as <- <- <-. apply seq_skip.
Qed.

(** X13: in the whole life of a monitor [download_logs] is entered at
    most twice: once by the initial detection of the first poll cycle
    that gets as far, which is never repeated, failed or not, and once by
    the archival. Once [is_exp_ids_detected] is set, the logs are
    fetched only to archive them. *)
Theorem logs_fetched_at_most_twice SM (ws : list World) (ph : phase) (m : Monitor) :
  (download_logs_calls (run SM ws ph m).2 <= 2)%nat /\
  (is_exp_ids_detected m = true ->
   download_logs_calls (run SM ws ph m).2 = archive_count (run SM ws ph m).2 /\
   (download_logs_calls (run SM ws ph m).2 <= 1)%nat).
Proof.
  destruct (run SM ws ph m) as [[ph' m'] evs] eqn:H. cbn [snd].
  pose proof (fetches_run _ _ _ _ _ _ _ H) as (T & F).
  pose proof (once_run _ _ _ _ _ _ _ H) as (A & _).
  split.
  - destruct (is_exp_ids_detected m) eqn:D.
    + destruct (T eq_refl) as (_ & C). lia.
    + destruct (F eq_refl) as [(_ & C) | (_ & C)]; lia.
  - intros D. destruct (T D) as (_ & C). split; [exact C | lia].
Qed.

Lemma logs_fetched_at_most_twice_witness :
  (download_logs_calls
     (run "SHUTDOWN" [marker_world "09:00:05.000"] Polling marker_cycle_1.1.2).2 <= 2)%nat /\
  download_logs_calls
    (run "SHUTDOWN" [marker_world "09:00:05.000"] Polling marker_cycle_1.1.2).2
  = archive_count
      (run "SHUTDOWN" [marker_world "09:00:05.000"] Polling marker_cycle_1.1.2).2 /\
  (download_logs_calls
     (run "SHUTDOWN" [marker_world "09:00:05.000"] Polling marker_cycle_1.1.2).2 <= 1)%nat.
Proof.
  destruct (logs_fetched_at_most_twice "SHUTDOWN" [marker_world "09:00:05.000"] Polling
              marker_cycle_1.1.2) as [A B].
  split; [exact A |]. apply B. vm_compute. reflexivity.
Defined.

(** ** Discovery *)

Definition name_of (i : Instance) : string := _get_tag_val (Tags i) "Name".

Definition named (name : string) (instances : list Instance) : list Instance :=
  List.filter (fun i => String.eqb (name_of i) name) instances.

Lemma _get_instance_by_name_named name instances :
  _get_instance_by_name name instances =
  match named name instances with
  | [] => Ret None
  | [i] => Ret (Some i)
  | _ => Raise AssertionError
  end.
Proof. reflexivity. Qed.

Lemma named_In name instances i :
  In i (named name instances) <-> In i instances /\ name_of i = name.
Proof. unfold named. rewrite List.filter_In, String.eqb_eq. reflexivity. Qed.

(** X14: [_get_instance_by_name] answers by the number of running
    instances that carry the name: [None] exactly when there is none, the
    instance when there is one, which then is one of the list and has
    the name, and AssertionError exactly when there are several. *)
Theorem get_instance_by_name_cases (name : string) (instances : list Instance) :
  (_get_instance_by_name name instances = Ret None <->
   forall i, In i instances -> name_of i <> name) /\
  (forall i, _get_instance_by_name name instances = Ret (Some i) ->
             In i instances /\ name_of i = name /\ named name instances = [i]) /\
  (_get_instance_by_name name instances = Raise AssertionError <->
   (2 <= length (named name instances))%nat) /\
  (forall e, _get_instance_by_name name instances = Raise e -> e = AssertionError).
Proof.
  rewrite _get_instance_by_name_named.
  pose proof (named_In name instances) as Hn.
  destruct (named name instances) as [| a [| b l]].
  - split; [split |].
    + intros _ i Hi He. exact (proj2 (Hn i) (conj Hi He)).
    + reflexivity.
    + split; [discriminate |]. split; [split; [discriminate | simpl; lia] | discriminate].
  - destruct (proj1 (Hn a) (or_introl eq_refl)) as [Hi He].
    split; [split |].
    + discriminate.
    + intros H. exfalso. exact (H a Hi He).
    + split; [intros i [= <-]; auto |].
      split; [split; [discriminate | simpl; lia] | discriminate].
  - destruct (proj1 (Hn a) (or_introl eq_refl)) as [Hi He].
    split; [split |].
    + discriminate.
    + intros H. exfalso. exact (H a Hi He).
    + split; [discriminate |].
      split; [split; [simpl; lia | reflexivity] | congruence].
Qed.

(** ** The supervisor's map *)

Fixpoint dict_get (k : string) (d : list (string * string)) : option string :=
  match d with
  | [] => None
  | (k', v) :: rest => if String.eqb k' k then Some v else dict_get k rest
  end.

Lemma in_machines_In k d : in_machines k d = true <-> In k (List.map fst d).
Proof.
  unfold in_machines. rewrite List.existsb_exists. split.
  - intros ([k' v] & Hin & He). apply String.eqb_eq in He. simpl in He. subst.
    apply List.in_map_iff. exists (k, v). auto.
  - intros H. apply List.in_map_iff in H as ([k' v] & <- & Hin).
    exists (k', v). split; [exact Hin | apply String.eqb_refl].
Qed.

Lemma dict_get_Some_In k d : is_Some (dict_get k d) <-> In k (List.map fst d).
Proof.
  induction d as [| [k' v] d IH]; simpl.
  - split; [intros [? [=]] | intros []].
  - destruct (String.eqb k' k) eqn:E.
    + apply String.eqb_eq in E. split; eauto.
    + apply String.eqb_neq in E. rewrite IH. split; [auto | intros [? | ?]; congruence].
Qed.

Lemma dict_set_keys k v d :
  List.map fst (dict_set k v d) =
  if in_machines k d then List.map fst d else List.map fst d ++ [k].
Proof.
  unfold in_machines. induction d as [| [k' v'] d IH]; [reflexivity |].
  cbn [dict_set existsb fst]. destruct (String.eqb k' k) eqn:E; [reflexivity |].
  cbn [List.map fst orb]. rewrite IH. destruct (existsb _ d); reflexivity.
Qed.

Lemma dict_get_set k v d k' :
  dict_get k' (dict_set k v d) = if String.eqb k k' then Some v else dict_get k' d.
Proof.
  induction d as [| [k0 v0] d IH]; simpl.
  - reflexivity.
  - destruct (String.eqb k0 k) eqn:E0; simpl.
    + apply String.eqb_eq in E0. subst k0.
      destruct (String.eqb k k'); reflexivity.
    + destruct (String.eqb k0 k') eqn:E1; [| exact IH].
      apply String.eqb_eq in E1. subst k0.
      rewrite String.eqb_sym in E0. now rewrite E0.
Qed.

Definition add_instance (d : list (string * string)) (ins : Instance) : list (string * string) :=
  dict_set (name_of ins) (PrivateIpAddress ins) d.

Lemma get_machines_fold instances :
  get_machines instances = List.fold_left add_instance instances [].
Proof. reflexivity. Qed.

Lemma fold_add_keys instances d :
  NoDup (List.map fst d) ->
  NoDup (List.map fst (List.fold_left add_instance instances d)) /\
  forall k, In k (List.map fst (List.fold_left add_instance instances d)) <->
            In k (List.map fst d) \/ exists i, In i instances /\ name_of i = k.
Proof.
  revert d. induction instances as [| i instances IH]; intros d Hd.
  - simpl. split; [exact Hd |]. intros k. split; [auto | intros [H | (i & [] & _)]; exact H].
  - cbn [List.fold_left].
    assert (NoDup (List.map fst (add_instance d i))) as Hd'.
    { unfold add_instance. rewrite dict_set_keys.
      destruct (in_machines (name_of i) d) eqn:E; [exact Hd |].
      apply NoDup_app. split; [exact Hd |]. split; [| apply NoDup_singleton].
      intros x Hx Hx'. apply list_elem_of_singleton in Hx'. subst x.
      apply list_elem_of_In in Hx. apply in_machines_In in Hx. congruence. }
    destruct (IH _ Hd') as [Hn Hk]. split; [exact Hn |].
    intros k. rewrite Hk. unfold add_instance at 1. rewrite dict_set_keys.
    destruct (in_machines (name_of i) d) eqn:E.
    + apply in_machines_In in E. split.
      * intros [H | (j & Hj & He)]; [auto | right; exists j; split; [now right | exact He]].
      * intros [H | (j & [<- | Hj] & He)]; [auto | subst k; auto | right; eauto].
    + rewrite List.in_app_iff. simpl. split.
      * intros [[H | [H | []]] | (j & Hj & He)];
          [auto | right; exists i; split; [now left | exact H]
           | right; exists j; split; [now right | exact He]].
      * intros [H | (j & [<- | Hj] & He)]; [auto | auto | right; eauto].
Qed.

Lemma find_app_first {A} (p : A -> bool) (l1 l2 : list A) :
  List.find p (l1 ++ l2) =
  match List.find p l1 with
  | Some x => Some x
  | None => List.find p l2
  end.
Proof.
  induction l1 as [| x l1 IH]; [reflexivity |].
  simpl. destruct (p x); [reflexivity | exact IH].
Qed.

Lemma fold_add_get instances d k :
  dict_get k (List.fold_left add_instance instances d) =
  match List.find (fun i => String.eqb (name_of i) k) (List.rev instances) with
  | Some i => Some (PrivateIpAddress i)
  | None => dict_get k d
  end.
Proof.
  revert d. induction instances as [| i instances IH]; intros d; [reflexivity |].
  cbn [List.fold_left List.rev]. rewrite IH. rewrite find_app_first.
  destruct (List.find _ (List.rev instances)); [reflexivity |].
  unfold add_instance. rewrite dict_get_set. simpl.
  destruct (String.eqb (name_of i) k); reflexivity.
Qed.

(** X15: the machines of a tick are keyed by name. Each name of the
    discovery answer occurs once, no other name occurs, and the address
    kept for a name is the one of the last instance that carries it. *)
Theorem get_machines_by_name (instances : list Instance) :
  List.NoDup (List.map fst (get_machines instances)) /\
  (forall k, in_machines k (get_machines instances) = true <->
             exists i, In i instances /\ name_of i = k) /\
  (forall k, dict_get k (get_machines instances) =
             PrivateIpAddress <$>
               List.find (fun i => String.eqb (name_of i) k) (List.rev instances)).
Proof.
  rewrite get_machines_fold.
  destruct (fold_add_keys instances [] (NoDup_nil_2)) as [Hn Hk].
  split; [now apply NoDup_ListNoDup |]. split.
  - intros k. rewrite in_machines_In, Hk. simpl. split; [intros [[] | H]; exact H | auto].
  - intros k. rewrite fold_add_get. destruct (List.find _ _); reflexivity.
Qed.

(** ** Reconciliation in general *)

Definition discovered (instances : list Instance) (k : string) : Prop :=
  exists i, In i instances /\ name_of i = k.

Lemma in_machines_get_machines instances k :
  in_machines k (get_machines instances) = true <-> discovered instances k.
Proof.
  rewrite in_machines_In, get_machines_fold.
  destruct (fold_add_keys instances [] NoDup_nil_2) as [_ Hk].
  rewrite Hk. simpl. split; [intros [[] | H]; exact H | auto].
Qed.

Definition with_new (name : string) (s : Supervisor.t) : Supervisor.t :=
  {| threads := <[name := constructed s]> (threads s); constructed := S (constructed s) |}.

Lemma launch_cons_old name ip rest s v :
  threads s !! name = Some v -> launch ((name, ip) :: rest) s = launch rest s.
Proof. intros H. cbn [launch]. now rewrite H. Qed.

Lemma launch_cons_new name ip rest s :
  threads s !! name = None ->
  launch ((name, ip) :: rest) s =
  ((launch rest (with_new name s)).1,
   (constructed s, name) :: (launch rest (with_new name s)).2).
Proof.
  intros H. cbn [launch]. rewrite H. fold (with_new name s).
  destruct (launch rest (with_new name s)) as [s2 started]. reflexivity.
Qed.

Lemma launch_preserves machines s k v :
  threads s !! k = Some v -> threads (launch machines s).1 !! k = Some v.
Proof.
  revert s. induction machines as [| [name ip] rest IH]; intros s Hk; [exact Hk |].
  destruct (threads s !! name) as [v0 |] eqn:Hn.
  - rewrite (launch_cons_old _ _ _ _ _ Hn). now apply IH.
  - rewrite (launch_cons_new _ _ _ _ Hn). cbn [fst]. apply IH.
    unfold with_new. cbn [threads]. rewrite lookup_insert_ne; [exact Hk | congruence].
Qed.

Lemma launch_dom machines s k :
  is_Some (threads (launch machines s).1 !! k) <->
  is_Some (threads s !! k) \/ In k (List.map fst machines).
Proof.
  revert s. induction machines as [| [name ip] rest IH]; intros s.
  - simpl. split; [auto | intros [H | []]; exact H].
  - cbn [List.map fst In]. destruct (threads s !! name) as [v0 |] eqn:Hn.
    + rewrite (launch_cons_old _ _ _ _ _ Hn), IH. split; [intros [H | H]; auto |].
      intros [H | [<- | H]]; [auto | left; rewrite Hn; eauto | auto].
    + rewrite (launch_cons_new _ _ _ _ Hn). cbn [fst]. rewrite IH.
      unfold with_new. cbn [threads]. split.
      * intros [H | H]; [| auto].
        destruct (decide (name = k)) as [<- | Hne]; [auto |].
        rewrite lookup_insert_ne in H by exact Hne. auto.
      * intros [H | [<- | H]]; [| | auto].
        -- left. destruct (decide (name = k)) as [<- | Hne].
           ++ rewrite lookup_insert_eq. eauto.
           ++ now rewrite lookup_insert_ne.
        -- left. rewrite lookup_insert_eq. eauto.
Qed.

Lemma launch_started machines s :
  (forall n, In n (List.map snd (launch machines s).2) <->
             In n (List.map fst machines) /\ threads s !! n = None) /\
  List.NoDup (List.map snd (launch machines s).2).
Proof.
  revert s. induction machines as [| [name ip] rest IH]; intros s.
  - simpl. split; [intros n; split; [intros [] | intros [[] _]] | constructor].
  - cbn [List.map fst In]. destruct (threads s !! name) as [v0 |] eqn:Hn.
    + rewrite (launch_cons_old _ _ _ _ _ Hn). destruct (IH s) as [Hi Hd].
      split; [| exact Hd]. intros n. rewrite Hi. split; [intros [H1 H2]; auto |].
      intros [[<- | H1] H2]; [congruence | auto].
    + rewrite (launch_cons_new _ _ _ _ Hn). cbn [snd List.map In].
      destruct (IH (with_new name s)) as [Hi Hd].
      assert (forall n, threads (with_new name s) !! n = None <->
                        n <> name /\ threads s !! n = None) as Hw.
      { intros n. unfold with_new. cbn [threads].
        destruct (decide (name = n)) as [<- | Hne].
        - rewrite lookup_insert_eq. split; [discriminate | intros [H _]; congruence].
        - rewrite lookup_insert_ne by exact Hne. split; [auto | intros [_ H]; exact H]. }
      split.
      * intros n. rewrite Hi, Hw. split.
        -- intros [<- | (H1 & H2 & H3)]; auto.
        -- intros [[<- | H1] H2]; [auto |].
           destruct (decide (n = name)) as [-> | Hne]; auto.
      * constructor; [| exact Hd]. rewrite Hi, Hw. intros (_ & H & _). congruence.
Qed.

Lemma launch_all_tracked machines s :
  (forall k, In k (List.map fst machines) -> is_Some (threads s !! k)) ->
  launch machines s = (s, []).
Proof.
  induction machines as [| [name ip] rest IH]; intros H; [reflexivity |].
  destruct (H name (or_introl eq_refl)) as [v Hv].
  rewrite (launch_cons_old _ _ _ _ _ Hv). apply IH. intros k Hk. apply H. now right.
Qed.

Lemma reconcile_unfold instances s :
  reconcile instances s =
  (pop_all (to_remove (get_machines instances) (launch (get_machines instances) s).1)
           (launch (get_machines instances) s).1,
   (launch (get_machines instances) s).2).
Proof.
  unfold reconcile. destruct (launch (get_machines instances) s) as [s1 st]. reflexivity.
Qed.

Lemma reconcile_lookup instances s k :
  threads (reconcile instances s).1 !! k =
  if in_machines k (get_machines instances)
  then threads (launch (get_machines instances) s).1 !! k
  else None.
Proof. rewrite reconcile_unfold. cbn [fst]. apply lookup_pop_all_to_remove. Qed.

(** X16: after the reconciliation of a tick the map tracks exactly the
    names of the discovery answer of that tick, whatever it tracked
    before. *)
Theorem reconcile_tracks_discovered (instances : list Instance) (s : Supervisor.t)
    (k : string) :
  is_Some (threads (reconcile instances s).1 !! k) <-> discovered instances k.
Proof.
  rewrite reconcile_lookup, <- in_machines_get_machines.
  destruct (in_machines k (get_machines instances)) eqn:E.
  - split; [reflexivity |]. intros _. apply launch_dom. right. now apply in_machines_In.
  - split; [intros [? [=]] | discriminate].
Qed.

(** X17: a tick keeps the monitor object of every tracked name that is
    still discovered, and drops from the map every tracked name that is
    not: a running monitor is never replaced by a new one for the same
    name. *)
Theorem reconcile_keeps_tracked (instances : list Instance) (s : Supervisor.t)
    (k : string) (v : nat) :
  threads s !! k = Some v ->
  (discovered instances k -> threads (reconcile instances s).1 !! k = Some v) /\
  (~ discovered instances k -> threads (reconcile instances s).1 !! k = None).
Proof.
  intros Hk. rewrite reconcile_lookup. split.
  - intros Hd. apply in_machines_get_machines in Hd. rewrite Hd.
    now apply launch_preserves.
  - intros Hd. destruct (in_machines k (get_machines instances)) eqn:E; [| reflexivity].
    exfalso. apply Hd. now apply in_machines_get_machines.
Qed.

Lemma reconcile_keeps_tracked_witness :
  (discovered [sample_instance "B"; sample_instance "C"] "B" ->
   threads (reconcile [sample_instance "B"; sample_instance "C"]
              {| threads := {["A" := 0%nat; "B" := 1%nat]}; constructed := 2 |}).1 !! "B"
   = Some 1%nat) /\
  (~ discovered [sample_instance "B"; sample_instance "C"] "B" ->
   threads (reconcile [sample_instance "B"; sample_instance "C"]
              {| threads := {["A" := 0%nat; "B" := 1%nat]}; constructed := 2 |}).1 !! "B"
   = None).
Proof.
  apply reconcile_keeps_tracked. vm_compute. reflexivity.
Defined.

(** X18: the monitors constructed and started by a tick are those of
    the discovered names that were not tracked, one for each name, also
    when discovery lists a name twice. *)
Theorem reconcile_starts_new_names (instances : list Instance) (s : Supervisor.t) :
  (forall n, In n (List.map snd (reconcile instances s).2) <->
             discovered instances n /\ threads s !! n = None) /\
  List.NoDup (List.map snd (reconcile instances s).2).
Proof.
  rewrite reconcile_unfold. cbn [snd].
  destruct (launch_started (get_machines instances) s) as [Hi Hd].
  split; [| exact Hd]. intros n.
  rewrite Hi, <- in_machines_In, in_machines_get_machines. reflexivity.
Qed.

(** X19: reconciliation is idempotent: a second tick with the same
    discovery answer constructs no monitor and leaves the map as it
    is. *)
Theorem reconcile_idempotent (instances : list Instance) (s : Supervisor.t) :
  (reconcile instances (reconcile instances s).1).2 = [] /\
  threads (reconcile instances (reconcile instances s).1).1
  = threads (reconcile instances s).1 /\
  constructed (reconcile instances (reconcile instances s).1).1
  = constructed (reconcile instances s).1.
Proof.
  set (s1 := (reconcile instances s).1).
  assert (launch (get_machines instances) s1 = (s1, [])) as HL.
  { apply launch_all_tracked. intros k Hk. subst s1.
    rewrite reconcile_lookup. rewrite (proj2 (in_machines_In _ _) Hk).
    apply launch_dom. now right. }
  split; [| split].
  - rewrite reconcile_unfold, HL. reflexivity.
  - apply map_eq. intros k. rewrite reconcile_lookup, HL. cbn [fst].
    destruct (in_machines k (get_machines instances)) eqn:E; [reflexivity |].
    subst s1. rewrite reconcile_lookup, E. reflexivity.
  - rewrite reconcile_unfold, HL. reflexivity.
Qed.

(** ** The table *)

Definition same_memory (received : list GpuRec) : Prop :=
  forall a b, In a received -> In b received -> total_mem a = total_mem b.

Lemma all_same_from_true first_mem received :
  all_same_from first_mem received = true <->
  forall r, In r received -> total_mem r = first_mem.
Proof.
  induction received as [| rec rest IH]; simpl.
  - split; [intros _ r [] | reflexivity].
  - destruct (String.eqb first_mem (total_mem rec)) eqn:E; simpl.
    + apply String.eqb_eq in E. rewrite IH. split.
      * intros H r [<- | Hr]; [now symmetry | now apply H].
      * intros H r Hr. apply H. now right.
    + apply String.eqb_neq in E. split; [discriminate |].
      intros H. exfalso. apply E. symmetry. apply H. now left.
Qed.

Lemma all_same_from_head g gs :
  all_same_from (total_mem g) (g :: gs) = true <-> same_memory (g :: gs).
Proof.
  rewrite all_same_from_true. split.
  - intros H a b Ha Hb. rewrite (H a Ha), (H b Hb). reflexivity.
  - intros H r Hr. apply H; [exact Hr | now left].
Qed.

Definition per_gpu_memory (gpu : GpuRec) : string :=
  used_mem gpu +:+ " /" +:+ total_mem gpu +:+ "G".

Lemma make_gpu_fields_cons g gs :
  make_gpu_fields (g :: gs) =
  Ret (join "," (util <$> g :: gs),
       if all_same_from (total_mem g) (g :: gs)
       then join "," (used_mem <$> g :: gs) +:+ " /" +:+ total_mem g +:+ "G"
       else join "," (per_gpu_memory <$> g :: gs)).
Proof.
  unfold make_gpu_fields, _all_gpus_same_memory, index.
  change ((g :: gs) !! 0%nat) with (Some g). cbn [mbind result_bind rbind].
  destruct (all_same_from (total_mem g) (g :: gs)); reflexivity.
Qed.

(** X20: on a list with at least one record [make_gpu_fields] never
    raises. The utilisation field lists every GPU; the memory field
    lists the used memory of every GPU followed by the total once when
    all GPUs report the same total, and used and total of each GPU
    otherwise. *)
Theorem make_gpu_fields_shape (g : GpuRec) (gs : list GpuRec) :
  exists memory,
    make_gpu_fields (g :: gs) = Ret (join "," (util <$> g :: gs), memory) /\
    (same_memory (g :: gs) ->
     memory = join "," (used_mem <$> g :: gs) +:+ " /" +:+ total_mem g +:+ "G") /\
    (~ same_memory (g :: gs) ->
     memory = join "," (per_gpu_memory <$> g :: gs)).
Proof.
  rewrite make_gpu_fields_cons. eexists. split; [reflexivity |].
  pose proof (all_same_from_head g gs) as H.
  destruct (all_same_from (total_mem g) (g :: gs)).
  - split; [reflexivity |]. intros N. exfalso. apply N. now apply H.
  - split; [| reflexivity]. intros S. apply H in S. discriminate.
Qed.

Definition blank_front : string * string * string * string * string :=
  ("", "", "", "", "").

Definition columns_of (r : row) : expid * string := (r.1.2, r.2).

Lemma line_rows_columns line_id front last_lines :
  columns_of <$> line_rows line_id front last_lines = last_lines.
Proof.
  revert line_id. induction last_lines as [| [e l] rest IH]; intros line_id; [reflexivity |].
  cbn [line_rows fmap list_fmap]. rewrite <- (IH (S line_id)) at 2.
  destruct (line_id =? 0)%nat; reflexivity.
Qed.

Lemma line_rows_blank line_id front last_lines :
  line_id <> 0%nat ->
  Forall (fun r : row => r.1.1 = blank_front) (line_rows line_id front last_lines).
Proof.
  revert line_id. induction last_lines as [| [e l] rest IH]; intros line_id Hne.
  - constructor.
  - cbn [line_rows]. destruct (Nat.eqb_spec line_id 0) as [-> | _]; [congruence |].
    constructor; [reflexivity | apply IH; lia].
Qed.

(** X21: for a monitor that has published at least one GPU record the
    rows of its machine are built without an exception. There is one
    row for each published last line, in their order, and one warning
    row when there is none; the first row carries name, address, load
    and the two GPU fields, and every further row leaves these five
    columns blank. *)
Theorem machine_rows_shape (name ip : string) (comm : Comm) :
  gpu comm <> [] ->
  exists gpu_utils gpu_mems first rest,
    make_gpu_fields (gpu comm) = Ret (gpu_utils, gpu_mems) /\
    machine_rows name ip comm = Ret (first :: rest) /\
    first.1.1 = (name, ip, load comm, gpu_utils, gpu_mems) /\
    Forall (fun r : row => r.1.1 = blank_front) rest /\
    match (result_ comm).1 with
    | [] => rest = [] /\ columns_of first = (EStr "-", "WARNING: NO LINE READ")
    | last_lines => columns_of <$> first :: rest = last_lines
    end.
Proof.
  intros Hg. unfold machine_rows.
  destruct (gpu comm) as [| g gs]; [congruence |].
  rewrite make_gpu_fields_cons.
  set (utils := join "," (util <$> g :: gs)).
  set (mems := if all_same_from (total_mem g) (g :: gs) then _ else _).
  cbn [mbind result_bind rbind].
  destruct (result_ comm) as [[| [e l] last_lines] heartbeat]; cbn [fst length Nat.eqb].
  - exists utils, mems. eexists. exists []. repeat split. constructor.
  - exists utils, mems. cbn [line_rows Nat.eqb]. do 2 eexists.
    split; [reflexivity |]. split; [reflexivity |]. split; [reflexivity |].
    split; [apply line_rows_blank; lia |].
    cbn [fmap list_fmap]. f_equal. apply line_rows_columns.
Qed.

Definition two_line_comm : Comm :=
  {| should_stop := false;
     result_ := ([(EInt 7160, "epoch 1"); (EInt 7161, "epoch 9")], "09:00:03.000");
     load := "0.52";
     gpu := [ {| util := "12 %"; used_mem := "1.2"; total_mem := "15.8" |} ] |}.

Lemma machine_rows_shape_witness :
  exists gpu_utils gpu_mems first rest,
    make_gpu_fields (gpu two_line_comm) = Ret (gpu_utils, gpu_mems) /\
    machine_rows "m1" "10.0.0.1" two_line_comm = Ret (first :: rest) /\
    first.1.1 = ("m1", "10.0.0.1", load two_line_comm, gpu_utils, gpu_mems) /\
    Forall (fun r : row => r.1.1 = blank_front) rest /\
    match (result_ two_line_comm).1 with
    | [] => rest = [] /\ columns_of first = (EStr "-", "WARNING: NO LINE READ")
    | last_lines => columns_of <$> first :: rest = last_lines
    end.
Proof. apply machine_rows_shape. simpl. discriminate. Defined.
